(** * The PagerDuty schedule resource of the Terraform provider

    A shallow embedding of [pagerduty/resource_pagerduty_schedule.go] and
    the properties of its layer reconciliation, read-back filter,
    validation and deletion workflow.

    Conventions of the embedding.
    - Go [int] is [Z]; no arithmetic of the resource can overflow.
    - Go [string] is [string]; [*string] and the other pointers the code
      tests or dereferences on purpose are [option].
    - [map[string]interface{}] is a [gmap string] over the values the
      code stores in it.
    - A Go slice that is re-sliced while it is ranged over is a backing
      array together with a length (section [Slices]).
    - Remote calls, [time.Now], [time.Sleep] and [resource.Retry] are
      operations of the monad [M]; a run-time panic is an outcome of it. *)

From Stdlib Require Import ZArith QArith String Ascii List Lia Bool.
From stdpp Require Import base option list strings gmap pretty.

Local Open Scope string_scope.
Local Open Scope list_scope.
Local Open Scope Z_scope.

(** ** Go values *)

(** [error] values. [PDError] is [*pagerduty.Error] of the client
    library: the HTTP status of the response, the decoded [errors]
    payload and the text of its [Error()] method. [ErrorWrap] is the
    result of [fmt.Errorf] with a [%w] verb. *)
Inductive GoError : Type :=
| PDError (status : Z) (errors : list string) (text : string)
| ErrorString (text : string)
| ErrorWrap (text : string) (inner : GoError).

Definition Error (e : GoError) : string :=
  match e with
  | PDError _ _ t => t
  | ErrorString t => t
  | ErrorWrap t _ => t
  end.

(** The outcome of running Go code: a value, or a run-time panic. *)
Inductive Outcome (A : Type) : Type :=
| Ok (a : A)
| Panic (msg : string).
Arguments Ok {A} a.
Arguments Panic {A} msg.

Definition nil_dereference : string :=
  "invalid memory address or nil pointer dereference".
Definition slice_bounds : string := "slice bounds out of range".

(** [fmt.Sprintf("%v", xs)] of a slice of strings: the elements
    separated by one space, in brackets. *)
Fixpoint join_space (xs : list string) : string :=
  match xs with
  | [] => ""
  | [x] => x
  | x :: rest => x +:+ " " +:+ join_space rest
  end.
Definition Sprintf_v (xs : list string) : string := "[" +:+ join_space xs +:+ "]".

Definition newline : string := String (ascii_of_nat 10) EmptyString.

(** What the resource takes from outside the file: Go's [time] package,
    [fmt]'s [%q] verb, and [renderRoundedPercentage] of [util.go]. An
    instant is a number of nanoseconds since the Unix epoch. *)
Class GoRuntime : Type := {
  (** [float64] and its zero value *)
  float64 : Type;
  float64_zero : float64;
  (** [time.Parse(time.RFC3339, v)]: the instant, [None] for a parse error *)
  time_Parse : string -> option Z;
  (** [t.Format(time.RFC3339)] of a time of the local zone *)
  time_Format : Z -> string;
  (** [t.String()] of a time in UTC *)
  time_String : Z -> string;
  (** [fmt.Sprintf("%q", s)] *)
  Sprintf_q : string -> string;
  (** [renderRoundedPercentage] *)
  renderRoundedPercentage : float64 -> string;
}.


(** ** The client library's documents *)

Record Restriction : Type := {
  r_Type : string;
  r_StartTimeOfDay : string;
  r_StartDayOfWeek : Z;
  r_DurationSeconds : Z;
}.

Record UserReference : Type := { u_ID : string; u_Type : string }.
Record UserReferenceWrapper : Type := { w_User : UserReference }.
Record TeamReference : Type := { t_ID : string; t_Type : string }.
Record EscalationPolicyReference : Type := { epr_ID : string }.

Record EscalationTargetReference : Type := {
  tg_ID : string;
  tg_Type : string;
}.

Record EscalationRule : Type := {
  er_ID : string;
  er_EscalationDelayInMinutes : Z;
  er_Targets : list EscalationTargetReference;
}.

Record EscalationPolicy : Type := {
  ep_ID : string;
  ep_Name : string;
  ep_EscalationRules : list EscalationRule;
}.

Record Incident : Type := { inc_HTMLURL : string }.

Record ListIncidentsOptions : Type := {
  o_DateRange : string;
  o_Statuses : list string;
  o_TeamIDs : list string;
}.

Section Documents.
Context `{GoRuntime}.

Record ScheduleLayer : Type := {
  sl_ID : string;
  sl_Name : string;
  sl_Start : string;
  sl_End : option string;
  sl_RotationVirtualStart : string;
  sl_RotationTurnLengthSeconds : Z;
  sl_RenderedCoveragePercentage : float64;
  sl_Users : list UserReferenceWrapper;
  sl_Restrictions : list Restriction;
}.

Record SubSchedule : Type := {
  ss_Name : string;
  ss_RenderedCoveragePercentage : float64;
}.

Record Schedule : Type := {
  s_ID : string;
  s_Name : string;
  s_TimeZone : string;
  s_Description : string;
  s_ScheduleLayers : list ScheduleLayer;
  s_Teams : list TeamReference;
  s_EscalationPolicies : list EscalationPolicyReference;
  s_FinalSchedule : option SubSchedule;
}.
End Documents.

(** ** The configuration as the plugin SDK hands it over *)

(** An element of the [restriction] list of a layer, and an element of
    the [layer] list: the SDK's schema fixes the keys and the types of
    these maps, so they are records here. *)
Record RawRestriction : Type := {
  rr_type : string;
  rr_start_time_of_day : string;
  rr_start_day_of_week : Z;
  rr_duration_seconds : Z;
}.

Record RawLayer : Type := {
  rl_id : string;
  rl_name : string;
  rl_start : string;
  rl_end : string;
  rl_rotation_virtual_start : string;
  rl_rotation_turn_length_seconds : Z;
  rl_users : list string;
  rl_restriction : list RawRestriction;
}.

#[global] Instance RawRestriction_eq_dec : EqDecision RawRestriction.
Proof. solve_decision. Defined.
#[global] Instance RawLayer_eq_dec : EqDecision RawLayer.
Proof. solve_decision. Defined.

(** The values the read path stores: [map[string]interface{}] of a
    restriction, of a layer, and of the final schedule. *)
Inductive RVal : Type :=
| RInt (z : Z)
| RString (s : string).

Inductive LVal : Type :=
| LInt (z : Z)
| LString (s : string)
| LStrings (ss : list string)
| LRestrictions (rs : list (gmap string RVal)).

Inductive SetValue : Type :=
| SetString (s : string)
| SetStrings (ss : list string)
| SetLayers (ls : list (gmap string LVal))
| SetFinalSchedule (fs : list (gmap string string)).

(** [*schema.ResourceData]: the identifier, the planned configuration,
    the [layer] list of the prior state (the old side of
    [GetChange("layer")]) and what [Set] has stored. *)
Record ResourceData : Type := {
  d_Id : string;
  d_name : string;
  d_time_zone : string;
  d_overflow : bool;
  d_description : string;
  d_layer : list RawLayer;
  d_teams : list string;
  d_layer_old : list RawLayer;
  d_stored : gmap string SetValue;
}.

Definition ResourceData_Set (key : string) (v : SetValue) (d : ResourceData) : ResourceData :=
  {| d_Id := d_Id d; d_name := d_name d; d_time_zone := d_time_zone d;
     d_overflow := d_overflow d; d_description := d_description d;
     d_layer := d_layer d; d_teams := d_teams d; d_layer_old := d_layer_old d;
     d_stored := <[key := v]> (d_stored d) |}.

Definition ResourceData_SetId (id : string) (d : ResourceData) : ResourceData :=
  {| d_Id := id; d_name := d_name d; d_time_zone := d_time_zone d;
     d_overflow := d_overflow d; d_description := d_description d;
     d_layer := d_layer d; d_teams := d_teams d; d_layer_old := d_layer_old d;
     d_stored := d_stored d |}.

(** ** Validation of the plan: [CustomizeDiff] *)

(** [diff.Get] of the keys [CustomizeDiff] reads. A key below an index
    that the plan does not have yields the zero value of its type. *)
Definition diff_restriction (diff : list RawLayer) (li ri : nat) : option RawRestriction :=
  l ← diff !! li; rl_restriction l !! ri.

Definition Get_layer_count (diff : list RawLayer) : nat := length diff.
Definition Get_restriction_count (diff : list RawLayer) (li : nat) : nat :=
  from_option (λ l, length (rl_restriction l)) 0%nat (diff !! li).
Definition Get_restriction_type (diff : list RawLayer) (li ri : nat) : string :=
  from_option rr_type "" (diff_restriction diff li ri).
Definition Get_restriction_start_day_of_week (diff : list RawLayer) (li ri : nat) : Z :=
  from_option rr_start_day_of_week 0 (diff_restriction diff li ri).
Definition Get_restriction_duration_seconds (diff : list RawLayer) (li ri : nat) : Z :=
  from_option rr_duration_seconds 0 (diff_restriction diff li ri).

Definition err_start_day_of_week : GoError :=
  ErrorString "start_day_of_week must only be set for a weekly_restriction schedule restriction type".
Definition err_duration_seconds : GoError :=
  ErrorString "duration_seconds for a daily_restriction schedule restriction type must be shorter than a day".

(** The body of the inner loop at index [ri]: the error it returns, if any. *)
Definition checkRestriction (diff : list RawLayer) (li ri : nat) : option GoError :=
  let t := Get_restriction_type diff li ri in
  if String.eqb t "daily_restriction"
     && negb (Get_restriction_start_day_of_week diff li ri =? 0)
  then Some err_start_day_of_week
  else
    let ds := Get_restriction_duration_seconds diff li ri in
    if String.eqb t "daily_restriction" && (3600 * 24 <=? ds)
    then Some err_duration_seconds
    else None.

(** [for i := 0; i <= n; i++ { if err := body(i); err != nil { return err } }],
    as a loop over the indices still to visit. *)
Fixpoint firstError (body : nat -> option GoError) (indices : list nat) : option GoError :=
  match indices with
  | [] => None
  | i :: rest =>
      match body i with
      | Some e => Some e
      | None => firstError body rest
      end
  end.

Definition CustomizeDiff (diff : list RawLayer) : option GoError :=
  let ln := Get_layer_count diff in
  firstError (λ li,
      let rn := Get_restriction_count diff li in
      firstError (checkRestriction diff li) (seq 0 (S rn)))
    (seq 0 (S ln)).

(** ** Slices that are re-sliced in place *)

Section Slices.
Context {A : Type}.

(** A slice that starts at the first cell of its backing array: the
    array (its length is the capacity) and the slice's length. *)
Record Slice : Type := { backing : list A; len : nat }.

Definition slice_of (l : list A) : Slice := {| backing := l; len := length l |}.
Definition elems (s : Slice) : list A := take (len s) (backing s).

(** [append(s[:i], s[i+1:]...)]. [s[:i]] needs [i <= cap(s)] and
    [s[i+1:]] needs [i+1 <= len(s)], else the slice expression
    panics. The result is one shorter than [s], so [append] never
    reallocates: it moves the cells [i+1 .. len-1] one place down in
    the backing array and leaves the cell [len-1] as it was. *)
Definition remove_index (s : Slice) (i : nat) : Outcome Slice :=
  if decide (i ≤ length (backing s) ∧ i + 1 ≤ len s)%nat
  then Ok {| backing := take i (backing s)
                        ++ take (len s - (i + 1)) (drop (i + 1) (backing s))
                        ++ drop (len s - 1) (backing s);
             len := (len s - 1)%nat |}
  else Panic slice_bounds.
End Slices.
Arguments Slice A : clear implicits.

#[global] Instance Outcome_ret : MRet Outcome := λ A a, Ok a.
#[global] Instance Outcome_bind : MBind Outcome := λ A B f o,
  match o with
  | Ok a => f a
  | Panic msg => Panic msg
  end.

(** [for i, x := range xs { st = body(i, st) }] over the indices still
    to visit; a panic in the body ends the loop. *)
Fixpoint forRange {S : Type} (body : nat -> S -> Outcome S) (indices : list nat) (st : S)
  : Outcome S :=
  match indices with
  | [] => Ok st
  | i :: rest =>
      match body i st with
      | Ok st' => forRange body rest st'
      | Panic msg => Panic msg
      end
  end.

(** ** Removing a schedule from an escalation policy: the loops *)

(** An [*EscalationRule]: the fields the loops leave alone, and the
    [Targets] slice they re-slice. *)
Record RuleObject : Type := {
  ro_ID : string;
  ro_EscalationDelayInMinutes : Z;
  ro_Targets : Slice EscalationTargetReference;
}.

Definition ro_set_Targets (ts : Slice EscalationTargetReference) (r : RuleObject) : RuleObject :=
  {| ro_ID := ro_ID r; ro_EscalationDelayInMinutes := ro_EscalationDelayInMinutes r;
     ro_Targets := ts |}.

(** The variables of [removeScheduleFromEP] that its loops change: the
    rule objects (a pointer to a rule is its position here), the slice
    [epr] of such pointers, and [needsToUpdate]. *)
Record Removal : Type := {
  rules : list RuleObject;
  epr : Slice nat;
  needsToUpdate : bool;
}.

Definition load_rules (rs : list EscalationRule) : Removal :=
  {| rules := (λ r, {| ro_ID := er_ID r;
                       ro_EscalationDelayInMinutes := er_EscalationDelayInMinutes r;
                       ro_Targets := slice_of (er_Targets r) |}) <$> rs;
     epr := slice_of (seq 0 (length rs));
     needsToUpdate := false |}.

(** The document a slice of rule pointers stands for. *)
Definition store_rules (st : Removal) : list EscalationRule :=
  omap (λ p, (λ r, {| er_ID := ro_ID r;
                     er_EscalationDelayInMinutes := ro_EscalationDelayInMinutes r;
                     er_Targets := elems (ro_Targets r) |}) <$> rules st !! p)
       (elems (epr st)).

Definition isScheduleConfiguredInEscalationRule (scheduleID : string)
    (target : EscalationTargetReference) : bool :=
  String.eqb (tg_Type target) "schedule_reference" && String.eqb (tg_ID target) scheduleID.

(** The body of the inner loop: rule pointer [p] was read at position
    [ri] of the outer range, and the inner range is at [index]. The
    target is read from the backing array of [r.Targets] as it is now. *)
Definition targetBody (scheduleID : string) (ri p index : nat) (st : Removal)
  : Outcome Removal :=
  match rules st !! p with
  | None => Panic nil_dereference
  | Some r =>
      match backing (ro_Targets r) !! index with
      | None => Panic "index out of range"
      | Some target =>
          if negb (isScheduleConfiguredInEscalationRule scheduleID target) then Ok st
          else if (1 <? len (ro_Targets r))%nat then
            ts ← remove_index (ro_Targets r) index;
            Ok {| rules := <[p := ro_set_Targets ts r]> (rules st);
                  epr := epr st; needsToUpdate := true |}
          else
            epr' ← remove_index (epr st) ri;
            Ok {| rules := rules st; epr := epr'; needsToUpdate := true |}
      end
  end.

(** The body of the outer loop at position [ri]: the rule pointer is
    read from the backing array of [epr] as it is now; the inner range
    runs over the length [r.Targets] has when it starts. *)
Definition ruleBody (scheduleID : string) (ri : nat) (st : Removal) : Outcome Removal :=
  match backing (epr st) !! ri with
  | None => Panic "index out of range"
  | Some p =>
      match rules st !! p with
      | None => Panic nil_dereference
      | Some r => forRange (targetBody scheduleID ri p) (seq 0 (len (ro_Targets r))) st
      end
  end.

(** Both loops of [removeScheduleFromEP], from the rules of the fetched
    policy: the outer range runs over the length [epr] has at first. *)
Definition removeScheduleLoops (scheduleID : string) (rs : list EscalationRule)
  : Outcome Removal :=
  forRange (ruleBody scheduleID) (seq 0 (length rs)) (load_rules rs).

(** ** The world the resource runs in *)

Definition time_Second : Z := 1000000000.
Definition time_Minute : Z := 60 * time_Second.

Section Resource.
Context `{GoRuntime}.

(** A call of the client library. *)
Inductive Request : Type :=
| SchedulesCreate (s : Schedule) (overflow : bool)
| SchedulesGet (id : string)
| SchedulesUpdate (id : string) (s : Schedule) (overflow : bool)
| SchedulesDelete (id : string)
| EscalationPoliciesGet (id : string)
| EscalationPoliciesUpdate (id : string) (ep : EscalationPolicy)
| IncidentsListAll (o : ListIncidentsOptions).

(** What a run leaves behind: the remote calls, each with the timeout
    of the innermost [resource.Retry] it was made under ([None]
    outside any), and the calls of [time.Sleep]. *)
Inductive Event : Type :=
| EvCall (deadline : option Z) (r : Request)
| EvSleep (d : Z).

(** The remote service, the client configuration and the clock. The
    answer to a call may depend on everything that happened before
    it. [clock k] is what the [k]-th call of [time.Now] returns.
    [attempts h timeout] is the number of further attempts the
    deadline of a [resource.Retry] started after [h] leaves room for,
    once the first attempt has failed. A call that succeeds returns a
    document, except that the schedule of [Schedules.Get] and
    [Schedules.Create] may be a nil pointer. *)
Record World : Type := {
  Config_Client : option GoError;
  clock : nat -> Z;
  attempts : list Event -> Z -> nat;
  remote_Schedules_Create : list Event -> Schedule -> bool -> GoError + option Schedule;
  remote_Schedules_Get : list Event -> string -> GoError + option Schedule;
  remote_Schedules_Update : list Event -> string -> Schedule -> bool -> option GoError;
  remote_Schedules_Delete : list Event -> string -> option GoError;
  remote_EscalationPolicies_Get : list Event -> string -> GoError + EscalationPolicy;
  remote_EscalationPolicies_Update :
    list Event -> string -> EscalationPolicy -> option GoError;
  remote_Incidents_ListAll : list Event -> ListIncidentsOptions -> GoError + list Incident;
}.

(** The state of a run: how often the clock was read, the events so
    far, the timeout of the enclosing [resource.Retry], and [d]. *)
Record State : Type := {
  tick : nat;
  trace : list Event;
  deadline : option Z;
  data : ResourceData;
}.

Definition M (A : Type) : Type := World -> State -> Outcome A * State.

#[export] Instance M_ret : MRet M := λ A a w s, (Ok a, s).
#[export] Instance M_bind : MBind M := λ A B f m w s,
  match m w s with
  | (Ok a, s') => f a w s'
  | (Panic msg, s') => (Panic msg, s')
  end.

Definition panic {A : Type} (msg : string) : M A := λ w s, (Panic msg, s).
Definition lift {A : Type} (o : Outcome A) : M A := λ w s, (o, s).

Definition emit (ev : Event) (s : State) : State :=
  {| tick := tick s; trace := trace s ++ [ev]; deadline := deadline s; data := data s |}.
Definition set_deadline (dl : option Z) (s : State) : State :=
  {| tick := tick s; trace := trace s; deadline := dl; data := data s |}.
Definition set_data (d : ResourceData) (s : State) : State :=
  {| tick := tick s; trace := trace s; deadline := deadline s; data := d |}.

(** A remote call: the world answers from the history, and the call
    joins the history. *)
Definition call {A : Type} (r : Request) (answer : World -> list Event -> A) : M A :=
  λ w s, (Ok (answer w (trace s)), emit (EvCall (deadline s) r) s).

Definition Client : M (option GoError) := λ w s, (Ok (Config_Client w), s).

Definition Schedules_Create (sch : Schedule) (overflow : bool) : M (GoError + option Schedule) :=
  call (SchedulesCreate sch overflow) (λ w h, remote_Schedules_Create w h sch overflow).
Definition Schedules_Get (id : string) : M (GoError + option Schedule) :=
  call (SchedulesGet id) (λ w h, remote_Schedules_Get w h id).
Definition Schedules_Update (id : string) (sch : Schedule) (overflow : bool)
  : M (option GoError) :=
  call (SchedulesUpdate id sch overflow) (λ w h, remote_Schedules_Update w h id sch overflow).
Definition Schedules_Delete (id : string) : M (option GoError) :=
  call (SchedulesDelete id) (λ w h, remote_Schedules_Delete w h id).
Definition EscalationPolicies_Get (id : string) : M (GoError + EscalationPolicy) :=
  call (EscalationPoliciesGet id) (λ w h, remote_EscalationPolicies_Get w h id).
Definition EscalationPolicies_Update (id : string) (ep : EscalationPolicy)
  : M (option GoError) :=
  call (EscalationPoliciesUpdate id ep) (λ w h, remote_EscalationPolicies_Update w h id ep).
Definition Incidents_ListAll (o : ListIncidentsOptions) : M (GoError + list Incident) :=
  call (IncidentsListAll o) (λ w h, remote_Incidents_ListAll w h o).

Definition time_Now : M Z := λ w s,
  (Ok (clock w (tick s)),
   {| tick := S (tick s); trace := trace s; deadline := deadline s; data := data s |}).
Definition time_Sleep (d : Z) : M unit := λ w s, (Ok tt, emit (EvSleep d) s).

Definition getData : M ResourceData := λ w s, (Ok (data s), s).
(** [d.Set(key, v)]; the values stored here have the types of the
    schema, for which [Set] returns no error. *)
Definition d_Set (key : string) (v : SetValue) : M unit :=
  λ w s, (Ok tt, set_data (ResourceData_Set key v (data s)) s).
Definition d_SetId (id : string) : M unit :=
  λ w s, (Ok tt, set_data (ResourceData_SetId id (data s)) s).

(** *** [resource.Retry] of the plugin SDK *)

Inductive RetryError : Type :=
| RetryableError (e : GoError)
| NonRetryableError (e : GoError).

(** The closure is run until it returns nil or a non-retryable error,
    or the deadline has passed; the error of the last run is the
    result. [C] is the state of the variables the closure captures. *)
Fixpoint retryLoop {C : Type} (n : nat) (f : C -> M (C * option RetryError)) (c : C)
  : M (C * option GoError) :=
  r ← f c;
  match r.2 with
  | None => mret (r.1, None)
  | Some (NonRetryableError e) => mret (r.1, Some e)
  | Some (RetryableError e) =>
      match n with
      | O => mret (r.1, Some e)
      | S n' => retryLoop n' f r.1
      end
  end.

Definition Retry {C : Type} (timeout : Z) (f : C -> M (C * option RetryError)) (c : C)
  : M (C * option GoError) :=
  λ w s,
    let r := retryLoop (attempts w (trace s) timeout) f c w (set_deadline (Some timeout) s) in
    (r.1, set_deadline (deadline s) r.2).

(** *** Helpers of [util.go] *)

(** Modelled from the spec: [timeToUTC] of [util.go], which is not
    among the sources. It parses an RFC 3339 timestamp and converts it
    to UTC, and fails when the input cannot be parsed. A time in UTC
    is its instant here. *)
Definition timeToUTC (v : string) : GoError + Z :=
  match time_Parse v with
  | Some t => inr t
  | None => inl (ErrorString ("parsing time " +:+ Sprintf_q v))
  end.

(** Modelled from the spec: [stringTypeToStringPtr] and
    [stringPtrToStringType] of [util.go], which are not among the
    sources. An absent end is the empty string of the configuration
    and the nil pointer of the document. *)
Definition stringTypeToStringPtr (v : string) : option string :=
  if String.eqb v "" then None else Some v.
Definition stringPtrToStringType (v : option string) : string :=
  match v with
  | None => ""
  | Some s => s
  end.

(** Modelled from the spec: [isErrCode] of [util.go], which is not
    among the sources. It tells whether an error is an error of the
    client library whose response has the given HTTP status. *)
Definition isErrCode (err : GoError) (code : Z) : bool :=
  match err with
  | PDError status _ _ => status =? code
  | _ => false
  end.

(** *** Between configuration and documents *)

Definition expandRestriction (rslr : RawRestriction) : Restriction :=
  {| r_Type := rr_type rslr;
     r_StartTimeOfDay := rr_start_time_of_day rslr;
     r_StartDayOfWeek := rr_start_day_of_week rslr;
     r_DurationSeconds := rr_duration_seconds rslr |}.

Definition expandUser (slu : string) : UserReferenceWrapper :=
  {| w_User := {| u_ID := slu; u_Type := "user" |} |}.

Fixpoint expandScheduleLayers (v : list RawLayer) : GoError + list ScheduleLayer :=
  match v with
  | [] => inr []
  | rsl :: rest =>
      match timeToUTC (rl_rotation_virtual_start rsl) with
      | inl err => inl err
      | inr rvs =>
          let scheduleLayer :=
            {| sl_ID := rl_id rsl;
               sl_Name := rl_name rsl;
               sl_Start := rl_start rsl;
               sl_End := stringTypeToStringPtr (rl_end rsl);
               sl_RotationVirtualStart := time_String rvs;
               sl_RotationTurnLengthSeconds := rl_rotation_turn_length_seconds rsl;
               sl_RenderedCoveragePercentage := float64_zero;
               sl_Users := expandUser <$> rl_users rsl;
               sl_Restrictions := expandRestriction <$> rl_restriction rsl |} in
          match expandScheduleLayers rest with
          | inl err => inl err
          | inr scheduleLayers => inr (scheduleLayer :: scheduleLayers)
          end
      end
  end.

Definition expandSchedTeams (v : list string) : list TeamReference :=
  (λ t, {| t_ID := t; t_Type := "team_reference" |}) <$> v.

Definition flattenShedTeams (teams : list TeamReference) : list string :=
  t_ID <$> teams.

(** [d.GetOk] is true for a value that is set and is not the zero
    value of its type. *)
Definition buildScheduleStruct (d : ResourceData) : GoError + Schedule :=
  match expandScheduleLayers (d_layer d) with
  | inl err => inl err
  | inr layers =>
      inr {| s_ID := "";
             s_Name := d_name d;
             s_TimeZone := d_time_zone d;
             s_Description :=
               if String.eqb (d_description d) "" then "" else d_description d;
             s_ScheduleLayers := layers;
             s_Teams :=
               match d_teams d with
               | [] => []
               | attr => expandSchedTeams attr
               end;
             s_EscalationPolicies := [];
             s_FinalSchedule := None |}
  end.

Definition set_ScheduleLayers (layers : list ScheduleLayer) (s : Schedule) : Schedule :=
  {| s_ID := s_ID s; s_Name := s_Name s; s_TimeZone := s_TimeZone s;
     s_Description := s_Description s; s_ScheduleLayers := layers;
     s_Teams := s_Teams s; s_EscalationPolicies := s_EscalationPolicies s;
     s_FinalSchedule := s_FinalSchedule s |}.

Definition set_End (e : option string) (sl : ScheduleLayer) : ScheduleLayer :=
  {| sl_ID := sl_ID sl; sl_Name := sl_Name sl; sl_Start := sl_Start sl; sl_End := e;
     sl_RotationVirtualStart := sl_RotationVirtualStart sl;
     sl_RotationTurnLengthSeconds := sl_RotationTurnLengthSeconds sl;
     sl_RenderedCoveragePercentage := sl_RenderedCoveragePercentage sl;
     sl_Users := sl_Users sl; sl_Restrictions := sl_Restrictions sl |}.

(** *** Reading back *)

Definition flattenRestriction (slr : Restriction) : gmap string RVal :=
  let restriction : gmap string RVal :=
    {[ "duration_seconds" := RInt (r_DurationSeconds slr);
       "start_time_of_day" := RString (r_StartTimeOfDay slr);
       "type" := RString (r_Type slr) ]} in
  if 0 <? r_StartDayOfWeek slr
  then <["start_day_of_week" := RInt (r_StartDayOfWeek slr)]> restriction
  else restriction.

(** The map of one layer that is read back; [endStr] is its end. *)
Definition flattenLayer (sl : ScheduleLayer) (endStr : string) : gmap string LVal :=
  let scheduleLayer : gmap string LVal :=
    {[ "id" := LString (sl_ID sl);
       "name" := LString (sl_Name sl);
       "end" := LString endStr;
       "start" := LString (sl_Start sl);
       "rotation_virtual_start" := LString (sl_RotationVirtualStart sl);
       "rotation_turn_length_seconds" := LInt (sl_RotationTurnLengthSeconds sl);
       "rendered_coverage_percentage" :=
         LString (renderRoundedPercentage (sl_RenderedCoveragePercentage sl)) ]} in
  let users := (λ slu, u_ID (w_User slu)) <$> sl_Users sl in
  let scheduleLayer := <["users" := LStrings users]> scheduleLayer in
  let restrictions := flattenRestriction <$> sl_Restrictions sl in
  <["restriction" := LRestrictions restrictions]> scheduleLayer.

(** The first loop of [flattenScheduleLayers]: [scheduleLayers] is
    the list built so far. *)
Fixpoint flattenLoop (v : list ScheduleLayer) (scheduleLayers : list (gmap string LVal))
  : M (GoError + list (gmap string LVal)) :=
  match v with
  | [] => mret (inr scheduleLayers)
  | sl :: rest =>
      let endStr := stringPtrToStringType (sl_End sl) in
      if negb (String.eqb endStr "") then
        match timeToUTC endStr with
        | inl err => mret (inl err)
        | inr end_ =>
            now ← time_Now;
            if end_ <? now
            then flattenLoop rest scheduleLayers
            else flattenLoop rest (scheduleLayers ++ [flattenLayer sl endStr])
        end
      else flattenLoop rest (scheduleLayers ++ [flattenLayer sl endStr])
  end.

(** The second loop: from the last index down to the first. *)
Fixpoint reverseLoop {A : Type} (i : nat) (xs resultReversed : list A) : list A :=
  match i with
  | O => resultReversed
  | S i' => reverseLoop i' xs (resultReversed ++ from_option (λ x, [x]) [] (xs !! i'))
  end.

Definition flattenScheduleLayers (v : list ScheduleLayer)
  : M (GoError + list (gmap string LVal)) :=
  r ← flattenLoop v [];
  match r with
  | inl err => mret (inl err)
  | inr scheduleLayers =>
      mret (inr (reverseLoop (length scheduleLayers) scheduleLayers []))
  end.

Definition flattenScheFinalSchedule (finalSche : option SubSchedule)
  : Outcome (list (gmap string string)) :=
  match finalSche with
  | None => Panic nil_dereference
  | Some fs =>
      let elem : gmap string string := {[ "name" := ss_Name fs ]} in
      let elem :=
        <["rendered_coverage_percentage" :=
            renderRoundedPercentage (ss_RenderedCoveragePercentage fs)]> elem in
      Ok ([] ++ [elem])
  end.

(** *** The operations of the resource *)

Definition readAttempt (_ : unit) : M (unit * option RetryError) :=
  d ← getData;
  r ← Schedules_Get (d_Id d);
  match r with
  | inl err =>
      time_Sleep (2 * time_Second);;
      mret (tt, Some (RetryableError err))
  | inr (Some schedule) =>
      d_Set "name" (SetString (s_Name schedule));;
      d_Set "time_zone" (SetString (s_TimeZone schedule));;
      d_Set "description" (SetString (s_Description schedule));;
      fl ← flattenScheduleLayers (s_ScheduleLayers schedule);
      match fl with
      | inl err => mret (tt, Some (NonRetryableError err))
      | inr layers =>
          d_Set "layer" (SetLayers layers);;
          d_Set "teams" (SetStrings (flattenShedTeams (s_Teams schedule)));;
          fs ← lift (flattenScheFinalSchedule (s_FinalSchedule schedule));
          d_Set "final_schedule" (SetFinalSchedule fs);;
          mret (tt, None)
      end
  | inr None => mret (tt, None)
  end.

Definition resourcePagerDutyScheduleRead : M (option GoError) :=
  c ← Client;
  match c with
  | Some err => mret (Some err)
  | None =>
      r ← Retry (30 * time_Second) readAttempt tt;
      match r.2 with
      | Some retryErr =>
          time_Sleep (2 * time_Second);;
          mret (Some retryErr)
      | None => mret None
      end
  end.

Definition resourcePagerDutyScheduleCreate : M (option GoError) :=
  c ← Client;
  match c with
  | Some err => mret (Some err)
  | None =>
      d ← getData;
      match buildScheduleStruct d with
      | inl err => mret (Some err)
      | inr schedule =>
          let overflow := d_overflow d in
          r ← Schedules_Create schedule overflow;
          match r with
          | inl err => mret (Some err)
          | inr None => panic nil_dereference
          | inr (Some schedule) =>
              d_SetId (s_ID schedule);;
              resourcePagerDutyScheduleRead
          end
      end
  end.

(** The inner loop of the update: is the identifier of [o] the
    identifier of a layer of [nsl]? *)
Definition layerFound (o : ScheduleLayer) (nsl : list ScheduleLayer) : bool :=
  fold_left (λ found n, if String.eqb (sl_ID o) (sl_ID n) then true else found) nsl false.

(** The outer loop of the update over the old layers still to visit;
    [layers] is [schedule.ScheduleLayers] so far. *)
Fixpoint endRemovedLayers (osl nsl layers : list ScheduleLayer)
  : M (GoError + list ScheduleLayer) :=
  match osl with
  | [] => mret (inr layers)
  | o :: rest =>
      if layerFound o nsl then endRemovedLayers rest nsl layers
      else
        now ← time_Now;
        match timeToUTC (time_Format now) with
        | inl err => mret (inl err)
        | inr end_ =>
            let endStr := time_String end_ in
            endRemovedLayers rest nsl (layers ++ [set_End (Some endStr) o])
        end
  end.

Definition updateAttempt (id : string) (schedule : Schedule) (overflow : bool) (_ : unit)
  : M (unit * option RetryError) :=
  r ← Schedules_Update id schedule overflow;
  match r with
  | Some err => mret (tt, Some (RetryableError err))
  | None => mret (tt, None)
  end.

Definition resourcePagerDutyScheduleUpdate : M (option GoError) :=
  c ← Client;
  match c with
  | Some err => mret (Some err)
  | None =>
      d ← getData;
      match buildScheduleStruct d with
      | inl err => mret (Some err)
      | inr schedule =>
          let overflow := d_overflow d in
          r ← (if bool_decide (d_layer_old d ≠ d_layer d) then
                 match expandScheduleLayers (d_layer_old d) with
                 | inl err => mret (inl err)
                 | inr osl =>
                     match expandScheduleLayers (d_layer d) with
                     | inl err => mret (inl err)
                     | inr nsl => endRemovedLayers osl nsl (s_ScheduleLayers schedule)
                     end
                 end
               else mret (inr (s_ScheduleLayers schedule)));
          match r with
          | inl err => mret (Some err)
          | inr layers =>
              let schedule := set_ScheduleLayers layers schedule in
              r ← Retry (2 * time_Minute) (updateAttempt (d_Id d) schedule overflow) tt;
              match r.2 with
              | Some retryErr =>
                  time_Sleep (2 * time_Second);;
                  mret (Some retryErr)
              | None => mret None
              end
          end
      end
  end.

(** The closure both scans fetch the schedule with: [s] is the
    captured variable. *)
Definition fetchAttempt (id : string) (s : option Schedule)
  : M (option Schedule * option RetryError) :=
  r ← Schedules_Get id;
  match r with
  | inl err =>
      time_Sleep (2 * time_Second);;
      mret (s, Some (RetryableError err))
  | inr resp => mret (resp, None)
  end.

Definition listAttempt (teams : list string) (linksToIncidents : list string)
  : M (list string * option RetryError) :=
  r ← Incidents_ListAll {| o_DateRange := "all";
                           o_Statuses := ["triggered"; "acknowledged"];
                           o_TeamIDs := teams |};
  match r with
  | inl err =>
      time_Sleep (2 * time_Second);;
      mret (linksToIncidents, Some (RetryableError err))
  | inr incidents =>
      mret (linksToIncidents ++ (inc_HTMLURL <$> incidents), None)
  end.

Definition listIncidentsOpenedRelatedToSchedule (id : string)
  : M (list string * option GoError) :=
  r ← Retry (10 * time_Second) (fetchAttempt id) None;
  match r.2 with
  | Some retryErr => mret ([], Some retryErr)
  | None =>
      match r.1 with
      | None => panic nil_dereference
      | Some s =>
          let teams := t_ID <$> s_Teams s in
          r ← Retry (10 * time_Second) (listAttempt teams) [];
          mret (r.1, None)
      end
  end.

Definition extractEPsAssociatedToSchedule (id : string)
  : M (list string * option GoError) :=
  r ← Retry (10 * time_Second) (fetchAttempt id) None;
  match r.2 with
  | Some retryErr => mret ([], Some retryErr)
  | None =>
      match r.1 with
      | None => panic nil_dereference
      | Some s => mret (epr_ID <$> s_EscalationPolicies s, None)
      end
  end.

Definition writeBackAttempt (ep : EscalationPolicy) (_ : unit)
  : M (unit * option RetryError) :=
  r ← EscalationPolicies_Update (ep_ID ep) ep;
  match r with
  | Some err =>
      if negb (isErrCode err 404) then mret (tt, Some (RetryableError err))
      else mret (tt, None)
  | None => mret (tt, None)
  end.

Definition removeScheduleFromEP (scheduleID : string) (ep : EscalationPolicy)
  : M (option GoError) :=
  st ← lift (removeScheduleLoops scheduleID (ep_EscalationRules ep));
  if negb (needsToUpdate st) then mret None
  else
    let ep := {| ep_ID := ep_ID ep; ep_Name := ep_Name ep;
                 ep_EscalationRules := store_rules st |} in
    r ← Retry (10 * time_Second) (writeBackAttempt ep) tt;
    match r.2 with
    | Some retryErr => mret (Some retryErr)
    | None => mret None
    end.

(** The closure that fetches a policy: the captured variables are
    [isEPFound] and [ep], here one optional policy. *)
Definition policyAttempt (epID : string) (found : option EscalationPolicy)
  : M (option EscalationPolicy * option RetryError) :=
  r ← EscalationPolicies_Get epID;
  match r with
  | inl err =>
      if isErrCode err 404 then mret (found, None)
      else mret (found, Some (RetryableError err))
  | inr resp => mret (Some resp, None)
  end.

Definition dissociateMessage (scheduleID epID : string) : string :=
  "Error while trying to dissociate Schedule " +:+ Sprintf_q scheduleID
    +:+ " from Escalation Policy " +:+ Sprintf_q epID.

Fixpoint dissociateScheduleFromEPs (scheduleID : string) (eps : list string)
  : M (option GoError) :=
  match eps with
  | [] => mret None
  | epID :: rest =>
      let errorMessage := dissociateMessage scheduleID epID in
      r ← Retry (10 * time_Second) (policyAttempt epID) None;
      match r.2 with
      | Some retryErr =>
          mret (Some (ErrorWrap (Error retryErr +:+ "; " +:+ errorMessage) retryErr))
      | None =>
          match r.1 with
          | None => dissociateScheduleFromEPs scheduleID rest
          | Some ep =>
              e ← removeScheduleFromEP scheduleID ep;
              match e with
              | Some err =>
                  mret (Some (ErrorWrap (Error err +:+ "; " +:+ errorMessage) err))
              | None => dissociateScheduleFromEPs scheduleID rest
              end
          end
      end
  end.

Definition conflictMessage : string :=
  "[Schedule can't be deleted if it's being used by escalation policies]".

(** The test of the delete closure on an error with status 400: is it
    not an error of the client library, or does its payload print as
    something else than the conflict message? *)
Definition notTheConflict (err : GoError) : bool :=
  match err with
  | PDError _ errors _ => negb (String.eqb (Sprintf_v errors) conflictMessage)
  | _ => true
  end.

Definition deleteAttempt (scheduleId : string) (epsAssociatedToSchedule : list string)
    (_ : unit) : M (unit * option RetryError) :=
  r ← Schedules_Delete scheduleId;
  match r with
  | Some err =>
      if negb (isErrCode err 400) then mret (tt, Some (RetryableError err))
      else if notTheConflict err then mret (tt, Some (NonRetryableError err))
      else
        workaroundErr ← dissociateScheduleFromEPs scheduleId epsAssociatedToSchedule;
        match workaroundErr with
        | Some werr =>
            mret (tt, Some (RetryableError
                              (ErrorWrap (Error err +:+ "; " +:+ Error werr) werr)))
        | None => mret (tt, Some (RetryableError err))
        end
  | None => mret (tt, None)
  end.

Definition urlLinksMessage (linksToIncidentsOpen : list string) : string :=
  fold_left (λ msg incident, msg +:+ newline +:+ incident) linksToIncidentsOpen "".

Definition openIncidentsError (scheduleId : string) (linksToIncidentsOpen : list string)
  : GoError :=
  ErrorString ("Before Removing Schedule " +:+ Sprintf_q scheduleId
    +:+ " You must first resolve the following incidents related with Escalation Policies using this Schedule... "
    +:+ urlLinksMessage linksToIncidentsOpen).

Definition resourcePagerDutyScheduleDelete : M (option GoError) :=
  c ← Client;
  match c with
  | Some err => mret (Some err)
  | None =>
      d ← getData;
      let scheduleId := d_Id d in
      eps ← extractEPsAssociatedToSchedule scheduleId;
      match eps.2 with
      | Some err => mret (Some err)
      | None =>
          let epsAssociatedToSchedule := eps.1 in
          links ← listIncidentsOpenedRelatedToSchedule scheduleId;
          match links.2 with
          | Some err => mret (Some err)
          | None =>
              let linksToIncidentsOpen := links.1 in
              if (0 <? length linksToIncidentsOpen)%nat then
                mret (Some (openIncidentsError scheduleId linksToIncidentsOpen))
              else
                r ← Retry (2 * time_Minute)
                      (deleteAttempt scheduleId epsAssociatedToSchedule) tt;
                match r.2 with
                | Some retryErr =>
                    time_Sleep (2 * time_Second);;
                    mret (Some retryErr)
                | None =>
                    d_SetId "";;
                    mret None
                end
          end
      end
  end.
End Resource.

(** ** A runtime to run the model on

    Go's [time] for the proleptic Gregorian calendar with UTC as the
    local zone, [%q] for strings without control characters, and the
    rationals for [float64]. The theorems below hold for every runtime;
    this one serves to run the resource on concrete documents. *)
Module Sample.

Definition days_from_civil (y m d : Z) : Z :=
  let y := if m <=? 2 then y - 1 else y in
  let era := y / 400 in
  let yoe := y - era * 400 in
  let doy := (153 * (if 2 <? m then m - 3 else m + 9) + 2) / 5 + d - 1 in
  let doe := yoe * 365 + yoe / 4 - yoe / 100 + doy in
  era * 146097 + doe - 719468.

Definition civil_from_days (z : Z) : Z * Z * Z :=
  let z := z + 719468 in
  let era := z / 146097 in
  let doe := z - era * 146097 in
  let yoe := (doe - doe / 1460 + doe / 36524 - doe / 146096) / 365 in
  let y := yoe + era * 400 in
  let doy := doe - (365 * yoe + yoe / 4 - yoe / 100) in
  let mp := (5 * doy + 2) / 153 in
  let d := doy - (153 * mp + 2) / 5 + 1 in
  let m := if mp <? 10 then mp + 3 else mp - 9 in
  (if m <=? 2 then y + 1 else y, m, d).

Definition days_in_month (y m : Z) : Z :=
  days_from_civil (if m =? 12 then y + 1 else y) (if m =? 12 then 1 else m + 1) 1
  - days_from_civil y m 1.

Definition digit (n : Z) : string :=
  String (ascii_of_nat (48 + Z.to_nat (n mod 10))) EmptyString.
Definition digits2 (n : Z) : string := digit (n / 10) +:+ digit n.
Definition digits4 (n : Z) : string := digits2 (n / 100) +:+ digits2 n.

Definition date_string (days : Z) : string :=
  let '(y, m, d) := civil_from_days days in
  digits4 y +:+ "-" +:+ digits2 m +:+ "-" +:+ digits2 d.
Definition clock_string (sod : Z) : string :=
  digits2 (sod / 3600) +:+ ":" +:+ digits2 (sod / 60 mod 60) +:+ ":" +:+ digits2 (sod mod 60).

Definition Format (t : Z) : string :=
  let secs := t / 1000000000 in
  date_string (secs / 86400) +:+ "T" +:+ clock_string (secs mod 86400) +:+ "Z".

(** The fraction of a second as [String] prints it: nine digits with
    the trailing zeros cut, nothing for a whole second. *)
Fixpoint fraction_digits (width : nat) (ns : Z) : string :=
  match width with
  | O => ""
  | S width' =>
      if ns =? 0 then ""
      else digit (ns / 10 ^ Z.of_nat width') +:+ fraction_digits width' (ns mod 10 ^ Z.of_nat width')
  end.

Definition String_ (t : Z) : string :=
  let secs := t / 1000000000 in
  let ns := t mod 1000000000 in
  date_string (secs / 86400) +:+ " " +:+ clock_string (secs mod 86400)
    +:+ (if ns =? 0 then "" else "." +:+ fraction_digits 9 ns) +:+ " +0000 UTC".

Definition digit_value (c : ascii) : option Z :=
  let n := Z.of_nat (nat_of_ascii c) in
  if (48 <=? n) && (n <=? 57) then Some (n - 48) else None.

Fixpoint number (cs : list ascii) (acc : Z) : option Z :=
  match cs with
  | [] => Some acc
  | c :: rest => v ← digit_value c; number rest (10 * acc + v)
  end.

(** The digits of a second's fraction: their value in nanoseconds
    (digits after the ninth are dropped) and what follows them. *)
Fixpoint fraction (cs : list ascii) (scale acc : Z) : Z * list ascii :=
  match cs with
  | [] => (acc, [])
  | c :: rest =>
      match digit_value c with
      | Some v => fraction rest (scale / 10) (acc + v * (scale / 10))
      | None => (acc, cs)
      end
  end.

(** The zone of an RFC 3339 timestamp, in seconds east of UTC. *)
Definition zone (cs : list ascii) : option Z :=
  match cs with
  | ["Z"%char] => Some 0
  | [sign; h1; h2; ":"%char; m1; m2] =>
      hh ← number [h1; h2] 0;
      mm ← number [m1; m2] 0;
      if (hh <=? 23) && (mm <=? 59) then
        if Ascii.eqb sign "+" then Some (hh * 3600 + mm * 60)
        else if Ascii.eqb sign "-" then Some (- (hh * 3600 + mm * 60))
        else None
      else None
  | _ => None
  end.

Definition Parse (v : string) : option Z :=
  match list_ascii_of_string v with
  | y1 :: y2 :: y3 :: y4 :: "-"%char :: m1 :: m2 :: "-"%char :: d1 :: d2 :: "T"%char
      :: h1 :: h2 :: ":"%char :: n1 :: n2 :: ":"%char :: s1 :: s2 :: rest =>
      y ← number [y1; y2; y3; y4] 0;
      m ← number [m1; m2] 0;
      d ← number [d1; d2] 0;
      hh ← number [h1; h2] 0;
      mm ← number [n1; n2] 0;
      ss ← number [s1; s2] 0;
      if (1 <=? m) && (m <=? 12) && (1 <=? d) && (d <=? days_in_month y m)
         && (hh <=? 23) && (mm <=? 59) && (ss <=? 59) then
        let '(ns, rest) :=
          match rest with
          | "."%char :: c :: more =>
              match digit_value c with
              | Some _ => fraction (c :: more) 1000000000 0
              | None => (0, rest)
              end
          | _ => (0, rest)
          end in
        off ← zone rest;
        Some ((days_from_civil y m d * 86400 + hh * 3600 + mm * 60 + ss - off)
              * 1000000000 + ns)
      else None
  | _ => None
  end.

Definition quote_char : ascii := ascii_of_nat 34.
Definition backslash : ascii := ascii_of_nat 92.

Fixpoint escape (s : string) : string :=
  match s with
  | EmptyString => EmptyString
  | String c rest =>
      if Ascii.eqb c quote_char || Ascii.eqb c backslash
      then String backslash (String c (escape rest))
      else String c (escape rest)
  end.

Definition Quote (s : string) : string :=
  String quote_char (escape s) +:+ String quote_char EmptyString.

(** [fmt.Sprintf("%.2f", math.Round(p*100))]: [math.Round] rounds
    half away from zero. *)
Definition render (p : Q) : string :=
  let half := if Qle_bool (Qmake 0 1) p then Qmake 1 2 else Qmake (-1) 2 in
  let q := Qred (Qplus (Qmult p (Qmake 100 1)) half) in
  pretty (Z.quot (Qnum q) (Z.pos (Qden q))) +:+ ".00".

#[export] Instance runtime : GoRuntime := {|
  float64 := Q;
  float64_zero := Qmake 0 1;
  time_Parse := Parse;
  time_Format := Format;
  time_String := String_;
  Sprintf_q := Quote;
  renderRoundedPercentage := render;
|}.
End Sample.

(** * Notions the statements use *)

Section Notions.
Context `{GoRuntime}.

(** The state an operation of the plugin starts in: nothing has
    happened, and no [resource.Retry] is running. *)
Definition start (d : ResourceData) : State :=
  {| tick := 0; trace := []; deadline := None; data := d |}.

(** The state after the clock was read [n] more times. *)
Definition advance (n : nat) (s : State) : State :=
  {| tick := tick s + n; trace := trace s; deadline := deadline s; data := data s |}.

(** The events a computation adds to the trace. *)
Definition events_of {A : Type} (m : M A) (w : World) (s : State) : list Event :=
  drop (length (trace s)) (trace (m w s).2).

(** Every event a computation adds satisfies [Q], which may depend on
    the timeout of the [resource.Retry] the computation is run under;
    and the computation leaves that timeout in place. *)
Definition emits {A : Type} (Q : option Z -> Event -> Prop) (m : M A) : Prop :=
  ∀ w s, ∃ evs,
    trace (m w s).2 = trace s ++ evs ∧
    deadline (m w s).2 = deadline s ∧
    Forall (Q (deadline s)) evs.

(** [good] holds of what is emitted under a retry with this timeout,
    and [good] holds of what is emitted, whatever the timeout. *)
Definition under (timeout : Z) (good : Event -> Prop) : option Z -> Event -> Prop :=
  λ dl ev, dl = Some timeout → good ev.
Definition always (good : Event -> Prop) : option Z -> Event -> Prop := λ _ ev, good ev.

(** *** Layers on the read path *)

Definition endStr (sl : ScheduleLayer) : string := stringPtrToStringType (sl_End sl).
(** The layer has an end: its [End] is neither nil nor empty. *)
Definition ended (sl : ScheduleLayer) : bool := negb (String.eqb (endStr sl) "").
Definition flat (sl : ScheduleLayer) : gmap string LVal := flattenLayer sl (endStr sl).

(** Every end there is, is a timestamp [timeToUTC] accepts. *)
Definition ends_parse (v : list ScheduleLayer) : Prop :=
  ∀ sl, sl ∈ v → ended sl = true → is_Some (time_Parse (endStr sl)).

(** The number of times the first loop of [flattenScheduleLayers]
    reads the clock. *)
Definition readings (v : list ScheduleLayer) : nat :=
  length (filter (λ sl, ended sl = true) v).

(** The layers that loop keeps when the clock was read [k] times
    before it. *)
Fixpoint visible (now : nat -> Z) (k : nat) (v : list ScheduleLayer) : list ScheduleLayer :=
  match v with
  | [] => []
  | sl :: rest =>
      if ended sl then
        match time_Parse (endStr sl) with
        | Some e =>
            if e <? now k then visible now (S k) rest else sl :: visible now (S k) rest
        | None => visible now (S k) rest
        end
      else sl :: visible now k rest
  end.

(** *** Layers on the update path *)




(** *** Events *)

Definition is_retried_with (timeout : Z) (ev : Event) : Prop :=
  ∃ r, ev = EvCall (Some timeout) r.

Definition sleeps_2s (ev : Event) : Prop := ev = EvSleep (2 * time_Second).

(** The calls that change nothing remotely. *)
Definition reads_only (ev : Event) : Prop :=
  match ev with
  | EvCall _ (SchedulesGet _) | EvCall _ (EscalationPoliciesGet _)
  | EvCall _ (IncidentsListAll _) | EvSleep _ => True
  | _ => False
  end.

(** What the read, the update, the delete and the create leave in the
    trace. *)
Definition read_event (ev : Event) : Prop :=
  sleeps_2s ev ∨ ∃ id, ev = EvCall (Some (30 * time_Second)) (SchedulesGet id).

Definition update_event (ev : Event) : Prop :=
  sleeps_2s ev ∨ ∃ id doc overflow,
    ev = EvCall (Some (2 * time_Minute)) (SchedulesUpdate id doc overflow).

Definition scan_event (ev : Event) : Prop :=
  sleeps_2s ev
  ∨ (∃ id, ev = EvCall (Some (10 * time_Second)) (SchedulesGet id))
  ∨ (∃ o, ev = EvCall (Some (10 * time_Second)) (IncidentsListAll o)).

Definition compensation_event (ev : Event) : Prop :=
  (∃ id, ev = EvCall (Some (10 * time_Second)) (EscalationPoliciesGet id))
  ∨ (∃ id ep, ev = EvCall (Some (10 * time_Second)) (EscalationPoliciesUpdate id ep)).

Definition delete_event (ev : Event) : Prop :=
  scan_event ev ∨ compensation_event ev
  ∨ ∃ id, ev = EvCall (Some (2 * time_Minute)) (SchedulesDelete id).

Definition create_event (ev : Event) : Prop :=
  read_event ev ∨ ∃ doc overflow, ev = EvCall None (SchedulesCreate doc overflow).



(** *** The runs of a retry *)


(** *** Errors of the delete *)


(** [url] occurs in [msg]. *)
Definition occurs_in (url msg : string) : Prop := ∃ pre post, msg = pre +:+ url +:+ post.

End Notions.

(** ** Documents and worlds to run the model on *)
Module Inputs.
Import Sample.

(** 2023-11-14T22:13:20Z *)
Definition T0 : Z := 1700000000000000000.

Definition raw (id end_ : string) (users : list string) (rs : list RawRestriction) : RawLayer :=
  {| rl_id := id; rl_name := "Layer " +:+ id; rl_start := "2023-01-02T09:00:00+01:00";
     rl_end := end_; rl_rotation_virtual_start := "2023-01-02T09:00:00+01:00";
     rl_rotation_turn_length_seconds := 86400; rl_users := users; rl_restriction := rs |}.

Definition weekdays : RawRestriction :=
  {| rr_type := "weekly_restriction"; rr_start_time_of_day := "09:00:00";
     rr_start_day_of_week := 1; rr_duration_seconds := 432000 |}.
Definition office_hours : RawRestriction :=
  {| rr_type := "daily_restriction"; rr_start_time_of_day := "09:00:00";
     rr_start_day_of_week := 0; rr_duration_seconds := 28800 |}.

Definition rawA : RawLayer := raw "PLAYERA" "" ["PUSER1"] [weekdays].
Definition rawB : RawLayer := raw "PLAYERB" "" ["PUSER2"] [office_hours].
Definition rawC : RawLayer := raw "PLAYERC" "" ["PUSER1"; "PUSER2"] [].

Definition layer (id : string) (end_ : option string) (users : list string)
    (rs : list Restriction) : ScheduleLayer :=
  {| sl_ID := id; sl_Name := "Layer " +:+ id; sl_Start := "2023-01-02T09:00:00+01:00";
     sl_End := end_; sl_RotationVirtualStart := "2023-01-02 08:00:00 +0000 UTC";
     sl_RotationTurnLengthSeconds := 86400; sl_RenderedCoveragePercentage := Qmake 0 1;
     sl_Users := expandUser <$> users; sl_Restrictions := rs |}.

Definition layerA : ScheduleLayer := layer "PLAYERA" None ["PUSER1"] [expandRestriction weekdays].
Definition layerC : ScheduleLayer := layer "PLAYERC" None ["PUSER1"; "PUSER2"] [].

(** Remote layers: one that ended on 2023-11-13, one that ends at [T0],
    one that ends on 2023-12-01, and one with no end. *)
Definition ended_yesterday : ScheduleLayer :=
  layer "PLAYER1" (Some "2023-11-13T22:13:20Z") ["PUSER1"] [].
Definition ends_now : ScheduleLayer :=
  layer "PLAYER2" (Some "2023-11-14T23:13:20+01:00") ["PUSER1"] [].
Definition ends_later : ScheduleLayer :=
  layer "PLAYER3" (Some "2023-12-01T00:00:00Z") ["PUSER2"] [expandRestriction office_hours].
Definition open_ended : ScheduleLayer :=
  layer "PLAYER4" None ["PUSER2"] [expandRestriction weekdays].

Definition document (layers : list ScheduleLayer) (final : option SubSchedule) : Schedule :=
  {| s_ID := "PSCHED"; s_Name := "Primary"; s_TimeZone := "Europe/Berlin";
     s_Description := "Managed by Terraform"; s_ScheduleLayers := layers;
     s_Teams := [{| t_ID := "PTEAM"; t_Type := "team_reference" |}];
     s_EscalationPolicies := [{| epr_ID := "PEP" |}];
     s_FinalSchedule := final |}.

Definition final : SubSchedule :=
  {| ss_Name := "Final Schedule"; ss_RenderedCoveragePercentage := Qmake 1 1 |}.

(** [d] of a plan that keeps layer C of the three layers A, B and C. *)
Definition plan : ResourceData :=
  {| d_Id := "PSCHED"; d_name := "Primary"; d_time_zone := "Europe/Berlin";
     d_overflow := false; d_description := "Managed by Terraform";
     d_layer := [rawC]; d_teams := ["PTEAM"]; d_layer_old := [rawA; rawB; rawC];
     d_stored := ∅ |}.

(** Escalation policies that use the schedule. *)
Definition to_schedule : EscalationTargetReference :=
  {| tg_ID := "PSCHED"; tg_Type := "schedule_reference" |}.
Definition to_user (id : string) : EscalationTargetReference :=
  {| tg_ID := id; tg_Type := "user_reference" |}.
Definition rule (id : string) (ts : list EscalationTargetReference) : EscalationRule :=
  {| er_ID := id; er_EscalationDelayInMinutes := 30; er_Targets := ts |}.
Definition policy (rs : list EscalationRule) : EscalationPolicy :=
  {| ep_ID := "PEP"; ep_Name := "Default"; ep_EscalationRules := rs |}.

(** Two rules that both have the schedule as their only target. *)
Definition two_rules : EscalationPolicy :=
  policy [rule "PRULE1" [to_schedule]; rule "PRULE2" [to_schedule]].
(** A rule with the schedule as its only target, before a rule with the
    schedule and a user, before a rule with a user. *)
Definition three_rules : EscalationPolicy :=
  policy [rule "PRULE1" [to_schedule]; rule "PRULE2" [to_schedule; to_user "PUSER1"];
          rule "PRULE3" [to_user "PUSER2"]].

Definition conflict : GoError :=
  PDError 400 ["Schedule can't be deleted if it's being used by escalation policies"]
    "DELETE API call to https://api.pagerduty.com/schedules/PSCHED failed 400 Bad Request".

Definition unavailable : GoError :=
  PDError 503 [] "GET API call to https://api.pagerduty.com/incidents failed 503".

(** The policy the service holds after a history: the one that was
    written back last, or else [ep]. *)
Definition current_policy (ep : EscalationPolicy) (h : list Event) : EscalationPolicy :=
  fold_left (λ cur ev, match ev with
                       | EvCall _ (EscalationPoliciesUpdate _ written) => written
                       | _ => cur
                       end) h ep.

Definition uses_schedule (ep : EscalationPolicy) : bool :=
  existsb (λ r, existsb (isScheduleConfiguredInEscalationRule "PSCHED") (er_Targets r))
    (ep_EscalationRules ep).

(** A world with the given clock, the given schedule, the given policy
    at first and the given answer of the incident listing. The delete
    is refused with the conflict while the policy uses the schedule if
    [guarded] is set; the other calls succeed. A deadline leaves room
    for two further attempts. *)
Definition world (now : nat -> Z) (fetched : Schedule) (ep : EscalationPolicy)
    (guarded : bool) (incidents : GoError + list Incident) : World :=
  {| Config_Client := None;
     clock := now;
     attempts := λ _ _, 2%nat;
     remote_Schedules_Create := λ _ doc _, inr (Some fetched);
     remote_Schedules_Get := λ _ _, inr (Some fetched);
     remote_Schedules_Update := λ _ _ _ _, None;
     remote_Schedules_Delete := λ h _,
       if guarded && uses_schedule (current_policy ep h) then Some conflict else None;
     remote_EscalationPolicies_Get := λ h _, inr (current_policy ep h);
     remote_EscalationPolicies_Update := λ _ _ _, None;
     remote_Incidents_ListAll := λ _ _, incidents |}.

(** A clock that reads 900 ms after [T0] first and 1200 ms after [T0]
    from then on. *)
Definition ticking : nat -> Z :=
  λ k, match k with O => T0 + 900000000 | _ => T0 + 1200000000 end.
(** A clock that stands at [T0]. *)
Definition frozen : nat -> Z := λ _, T0.

Definition remote_layers : list ScheduleLayer :=
  [ended_yesterday; ends_now; ends_later; open_ended].

Definition calm : World :=
  world ticking (document remote_layers (Some final)) three_rules false (inr []).
Definition still : World :=
  world frozen (document remote_layers (Some final)) three_rules false (inr []).
Definition open_incident : World :=
  world frozen (document remote_layers (Some final)) three_rules false
    (inr [{| inc_HTMLURL := "https://acme.pagerduty.com/incidents/Q1" |}]).
Definition in_use (ep : EscalationPolicy) : World :=
  world frozen (document remote_layers (Some final)) ep true (inr []).

(** The policies of the write-backs among some events. *)
Definition write_backs (evs : list Event) : list EscalationPolicy :=
  omap (λ ev, match ev with
              | EvCall _ (EscalationPoliciesUpdate _ ep) => Some ep
              | _ => None
              end) evs.

(** [needsToUpdate] and the rules [epr] stands for, after the loops. *)
Definition rules_after (o : Outcome Removal) : Outcome (bool * list EscalationRule) :=
  st ← o; Ok (needsToUpdate st, store_rules st).

End Inputs.

(** * Notions for the further properties *)

Section MoreNotions.
Context `{GoRuntime}.

(** The layer [expandScheduleLayers] makes of a configured layer whose
    [rotation_virtual_start] parses to the instant [rvs]. *)
Definition expanded (rsl : RawLayer) (rvs : Z) : ScheduleLayer :=
  {| sl_ID := rl_id rsl;
     sl_Name := rl_name rsl;
     sl_Start := rl_start rsl;
     sl_End := stringTypeToStringPtr (rl_end rsl);
     sl_RotationVirtualStart := time_String rvs;
     sl_RotationTurnLengthSeconds := rl_rotation_turn_length_seconds rsl;
     sl_RenderedCoveragePercentage := float64_zero;
     sl_Users := expandUser <$> rl_users rsl;
     sl_Restrictions := expandRestriction <$> rl_restriction rsl |}.

(** The configured layer has a [rotation_virtual_start] that is no
    RFC 3339 timestamp. *)
Definition bad_start (rsl : RawLayer) : Prop :=
  time_Parse (rl_rotation_virtual_start rsl) = None.

(** The first configured layer with a bad [rotation_virtual_start]. *)
Fixpoint first_bad_start (v : list RawLayer) : option RawLayer :=
  match v with
  | [] => None
  | rsl :: rest =>
      match time_Parse (rl_rotation_virtual_start rsl) with
      | None => Some rsl
      | Some _ => first_bad_start rest
      end
  end.

(** A map that is read back agrees with a configured layer on what the
    configuration says of it. *)
Definition reads_back (rsl : RawLayer) (m : gmap string LVal) : Prop :=
  m !! "id" = Some (LString (rl_id rsl)) ∧
  m !! "name" = Some (LString (rl_name rsl)) ∧
  m !! "start" = Some (LString (rl_start rsl)) ∧
  m !! "end" = Some (LString (rl_end rsl)) ∧
  m !! "rotation_turn_length_seconds" = Some (LInt (rl_rotation_turn_length_seconds rsl)) ∧
  m !! "users" = Some (LStrings (rl_users rsl)) ∧
  ∃ rs, m !! "restriction" = Some (LRestrictions rs) ∧
    Forall2 (λ rslr r,
        r !! "type" = Some (RString (rr_type rslr)) ∧
        r !! "start_time_of_day" = Some (RString (rr_start_time_of_day rslr)) ∧
        r !! "duration_seconds" = Some (RInt (rr_duration_seconds rslr)) ∧
        r !! "start_day_of_week"
        = (if 0 <? rr_start_day_of_week rslr then Some (RInt (rr_start_day_of_week rslr))
           else None))
      (rl_restriction rsl) rs.

(** The configured end is none, or an instant no reading of the clock
    is after. *)
Definition not_ended (w : World) (rsl : RawLayer) : Prop :=
  rl_end rsl = "" ∨ ∃ e, time_Parse (rl_end rsl) = Some e ∧ ∀ j, clock w j ≤ e.

(** Whatever the world answers, a computation takes [d] to a [d]
    that is related to it by [R]. *)
Definition keeps {A : Type} (R : relation ResourceData) (m : M A) : Prop :=
  ∀ w s, R (data s) (data (m w s).2).

(** A computation leaves [d] as it is. *)
Definition steady {A : Type} (m : M A) : Prop := keeps eq m.

Definition same_Id : relation ResourceData := λ d d', d_Id d' = d_Id d.

(** The state after the events [evs]. *)
Definition after (evs : list Event) (s : State) : State :=
  {| tick := tick s; trace := trace s ++ evs; deadline := deadline s; data := data s |}.

(** The events of [n] runs of a closure that fetches the schedule,
    fails and sleeps. *)
Definition failed_fetches (timeout : Z) (id : string) (n : nat) : list Event :=
  mjoin (replicate n [EvCall (Some timeout) (SchedulesGet id); EvSleep (2 * time_Second)]).

(** The error [timeToUTC] returns for the end of a layer. *)
Definition bad_end_error (sl : ScheduleLayer) : GoError :=
  ErrorString ("parsing time " +:+ Sprintf_q (endStr sl)).

(** The first event a computation adds is [ev]. *)
Definition begins {A : Type} (ev : Event) (m : M A) (w : World) (s : State) : Prop :=
  ∃ rest, trace (m w s).2 = trace s ++ ev :: rest.

End MoreNotions.

(** *** Rules and targets of an escalation policy *)

Section RemovalNotions.

(** The target is not the schedule. *)
Definition off (scheduleID : string) (t : EscalationTargetReference) : Prop :=
  isScheduleConfiguredInEscalationRule scheduleID t = false.

(** No target of the rule is the schedule. *)
Definition free_of (scheduleID : string) (r : EscalationRule) : Prop :=
  Forall (off scheduleID) (er_Targets r).

Definition with_Targets (ts : list EscalationTargetReference) (r : EscalationRule)
  : EscalationRule :=
  {| er_ID := er_ID r; er_EscalationDelayInMinutes := er_EscalationDelayInMinutes r;
     er_Targets := ts |}.

(** The rule object [load_rules] makes of a rule, and the rule
    [store_rules] makes of a rule object. *)
Definition to_object (r : EscalationRule) : RuleObject :=
  {| ro_ID := er_ID r;
     ro_EscalationDelayInMinutes := er_EscalationDelayInMinutes r;
     ro_Targets := slice_of (er_Targets r) |}.

Definition to_rule (o : RuleObject) : EscalationRule :=
  {| er_ID := ro_ID o;
     er_EscalationDelayInMinutes := ro_EscalationDelayInMinutes o;
     er_Targets := elems (ro_Targets o) |}.

(** The rule without the schedule: nothing when the schedule was its
    only target. *)
Definition without (ts : list EscalationTargetReference) (r : EscalationRule)
  : list EscalationRule :=
  match ts with
  | [] => []
  | _ => [with_Targets ts r]
  end.

End RemovalNotions.

(** *** The plan *)

(** What [CustomizeDiff] holds against one restriction, if anything. *)
Definition offence (r : RawRestriction) : option GoError :=
  if decide (rr_type r = "daily_restriction") then
    if decide (rr_start_day_of_week r ≠ 0) then Some err_start_day_of_week
    else if decide (86400 ≤ rr_duration_seconds r) then Some err_duration_seconds
    else None
  else None.

(** ** More documents and worlds to run the model on *)
Module MoreInputs.
Import Sample Inputs.

(** A layer that ends on 2023-12-01, as configured and as a document. *)
Definition rawE : RawLayer := raw "PLAYERE" "2023-12-01T00:00:00Z" ["PUSER2"] [office_hours].
Definition layerE : ScheduleLayer :=
  layer "PLAYERE" (Some "2023-12-01T00:00:00Z") ["PUSER2"] [expandRestriction office_hours].

(** A configured layer whose [rotation_virtual_start] is no timestamp. *)
Definition rawD : RawLayer :=
  {| rl_id := "PLAYERD"; rl_name := "Layer PLAYERD"; rl_start := "2023-01-02T09:00:00+01:00";
     rl_end := ""; rl_rotation_virtual_start := "next monday";
     rl_rotation_turn_length_seconds := 86400; rl_users := ["PUSER1"]; rl_restriction := [] |}.

Definition bad_plan : ResourceData :=
  {| d_Id := "PSCHED"; d_name := "Primary"; d_time_zone := "Europe/Berlin";
     d_overflow := false; d_description := "Managed by Terraform";
     d_layer := [rawC; rawD]; d_teams := ["PTEAM"]; d_layer_old := [rawC];
     d_stored := ∅ |}.

(** The document [buildScheduleStruct] makes of [plan]. *)
Definition planned : Schedule :=
  {| s_ID := ""; s_Name := "Primary"; s_TimeZone := "Europe/Berlin";
     s_Description := "Managed by Terraform"; s_ScheduleLayers := [layerC];
     s_Teams := [{| t_ID := "PTEAM"; t_Type := "team_reference" |}];
     s_EscalationPolicies := []; s_FinalSchedule := None |}.

(** A remote layer whose end is no timestamp. *)
Definition garbled : ScheduleLayer := layer "PLAYER5" (Some "tomorrow") ["PUSER1"] [].

(** [w] with other answers to the fetch of a schedule, to the update
    of a schedule, and to the fetch of a policy. *)
Definition answering (get : GoError + option Schedule) (update : option GoError)
    (policy_get : option GoError) (w : World) : World :=
  {| Config_Client := Config_Client w;
     clock := clock w;
     attempts := attempts w;
     remote_Schedules_Create := remote_Schedules_Create w;
     remote_Schedules_Get := λ _ _, get;
     remote_Schedules_Update := λ _ _ _ _, update;
     remote_Schedules_Delete := remote_Schedules_Delete w;
     remote_EscalationPolicies_Get := λ h id,
       match policy_get with
       | Some err => inl err
       | None => remote_EscalationPolicies_Get w h id
       end;
     remote_EscalationPolicies_Update := remote_EscalationPolicies_Update w;
     remote_Incidents_ListAll := remote_Incidents_ListAll w |}.

(** The service answers the fetch with no schedule and no error. *)
Definition absent : World := answering (inr None) None None still.
(** The service fails every fetch of the schedule. *)
Definition outage : World := answering (inl unavailable) None None still.
(** The service answers the fetch with a layer whose end is garbled. *)
Definition corrupt : World :=
  answering (inr (Some (document [open_ended; garbled] (Some final)))) None None still.
(** The service fails every fetch of a policy. *)
Definition policies_down : World :=
  answering (inr (Some (document remote_layers (Some final)))) None (Some unavailable) still.

(** The service fails the first fetch of the schedule and answers
    every later one. *)
Definition recovering : World :=
  {| Config_Client := None;
     clock := frozen;
     attempts := λ _ _, 2%nat;
     remote_Schedules_Create := remote_Schedules_Create still;
     remote_Schedules_Get := λ h id,
       match h with
       | [] => inl unavailable
       | _ => remote_Schedules_Get still h id
       end;
     remote_Schedules_Update := remote_Schedules_Update still;
     remote_Schedules_Delete := remote_Schedules_Delete still;
     remote_EscalationPolicies_Get := remote_EscalationPolicies_Get still;
     remote_EscalationPolicies_Update := remote_EscalationPolicies_Update still;
     remote_Incidents_ListAll := remote_Incidents_ListAll still |}.



(** A policy none of whose rules has the schedule as a target, and a
    policy whose second rule has it as the second of three targets. *)
Definition unrelated : EscalationPolicy :=
  policy [rule "PRULE1" [to_user "PUSER1"]; rule "PRULE3" [to_user "PUSER2"]].
Definition shared_rule : EscalationRule :=
  rule "PRULE2" [to_user "PUSER1"; to_schedule; to_user "PUSER2"].
Definition one_reference : EscalationPolicy :=
  policy [rule "PRULE1" [to_user "PUSER1"]; shared_rule; rule "PRULE3" [to_user "PUSER2"]].

End MoreInputs.

(** * Properties *)

(** ** Validation *)

Lemma firstError_None (body : nat -> option GoError) (indices : list nat) :
  firstError body indices = None ↔ ∀ i, i ∈ indices → body i = None.
Proof.
  induction indices as [|i rest IH]; simpl.
  - split; [intros _ i Hi; inversion Hi | done].
  - destruct (body i) eqn:Hb.
    + split; [done | intros Hall]. rewrite Hall in Hb; [done | left].
    + rewrite IH. split.
      * intros Hall j Hj. apply elem_of_cons in Hj as [-> | Hj]; auto.
      * intros Hall j Hj. apply Hall. by right.
Qed.

Lemma checkRestriction_None (diff : list RawLayer) (li ri : nat) :
  checkRestriction diff li ri = None ↔
  ∀ r, diff_restriction diff li ri = Some r → rr_type r = "daily_restriction" →
       rr_start_day_of_week r = 0 ∧ rr_duration_seconds r < 86400.
Proof.
  unfold checkRestriction, Get_restriction_type, Get_restriction_start_day_of_week,
    Get_restriction_duration_seconds.
  destruct (diff_restriction diff li ri) as [r|]; simpl.
  - destruct (String.eqb_spec (rr_type r) "daily_restriction") as [Ht|Ht]; simpl.
    + destruct (Z.eqb_spec (rr_start_day_of_week r) 0) as [Hd|Hd]; simpl.
      * destruct (Z.leb_spec (3600 * 24) (rr_duration_seconds r)) as [Hs|Hs].
        -- split; [done|]. intros Hr. destruct (Hr r eq_refl Ht). lia.
        -- split; [|done]. intros _ r' [= <-] _. lia.
      * split; [done|]. intros Hr. by destruct (Hr r eq_refl Ht).
    + split; [|done]. intros _ r' [= <-] Ht'. done.
  - split; [|done]. by intros _ r' [=].
Qed.

Lemma CustomizeDiff_None (diff : list RawLayer) :
  CustomizeDiff diff = None ↔
  ∀ li l ri r, diff !! li = Some l → rl_restriction l !! ri = Some r →
    rr_type r = "daily_restriction" →
    rr_start_day_of_week r = 0 ∧ rr_duration_seconds r < 86400.
Proof.
  unfold CustomizeDiff. rewrite firstError_None. split.
  - intros Hall li l ri r Hl Hr Ht.
    assert (Hli : li ∈ seq 0 (S (Get_layer_count diff))).
    { apply elem_of_seq. apply lookup_lt_Some in Hl. unfold Get_layer_count.
      lia. }
    specialize (Hall li Hli). rewrite firstError_None in Hall.
    assert (Hri : ri ∈ seq 0 (S (Get_restriction_count diff li))).
    { apply elem_of_seq. unfold Get_restriction_count. rewrite Hl. simpl.
      apply lookup_lt_Some in Hr. lia. }
    specialize (Hall ri Hri). rewrite checkRestriction_None in Hall.
    apply (Hall r); [|done]. unfold diff_restriction. by rewrite Hl.
  - intros Hall li _. apply firstError_None. intros ri _.
    apply checkRestriction_None. intros r Hr Ht.
    unfold diff_restriction in Hr. destruct (diff !! li) as [l|] eqn:Hl; [|done].
    simpl in Hr. by apply (Hall li l ri r).
Qed.

(** C6: the plan is rejected exactly when some restriction of some
    layer is a [daily_restriction] whose [start_day_of_week] is not
    zero or whose [duration_seconds] is 86400 or more; so a daily
    restriction of 86399 seconds without a day of the week passes, and
    no [weekly_restriction] is ever the reason of a rejection. *)
Theorem CustomizeDiff_rejects_iff (diff : list RawLayer) :
  is_Some (CustomizeDiff diff) ↔
  ∃ li l ri r, diff !! li = Some l ∧ rl_restriction l !! ri = Some r ∧
    rr_type r = "daily_restriction" ∧
    (rr_start_day_of_week r ≠ 0 ∨ 86400 ≤ rr_duration_seconds r).
Proof.
  split.
  - intros Hsome.
    destruct (decide (Exists (λ l, Exists (λ r, rr_type r = "daily_restriction" ∧
        (rr_start_day_of_week r ≠ 0 ∨ 86400 ≤ rr_duration_seconds r))
        (rl_restriction l)) diff)) as [Hex|Hno].
    + apply Exists_exists in Hex as (l & Hl & Hex).
      apply Exists_exists in Hex as (r & Hr & Ht & Hbad).
      apply list_elem_of_lookup in Hl as [li Hl]. apply list_elem_of_lookup in Hr as [ri Hr].
      by exists li, l, ri, r.
    + exfalso. assert (CustomizeDiff diff = None) as Hnone; [|rewrite Hnone in Hsome; by destruct Hsome].
      apply CustomizeDiff_None. intros li l ri r Hl Hr Ht.
      destruct (decide (rr_start_day_of_week r = 0)) as [Hd|Hd];
        [destruct (decide (rr_duration_seconds r < 86400)) as [Hs|Hs]; [done|]|];
        exfalso; apply Hno; apply Exists_exists; exists l;
        (split; [by eapply list_elem_of_lookup_2|]); apply Exists_exists; exists r;
        (split; [by eapply list_elem_of_lookup_2|]); split; [done | lia | done | by left].
  - intros (li & l & ri & r & Hl & Hr & Ht & Hbad).
    destruct (CustomizeDiff diff) eqn:Hc; [done|]. exfalso.
    destruct (proj1 (CustomizeDiff_None diff) Hc li l ri r Hl Hr Ht). lia.
Qed.

(** ** Running the monad *)

Section Properties.
Context `{GoRuntime}.

Lemma run_bind {A B : Type} (m : M A) (k : A -> M B) (w : World) (s : State) :
  (m ≫= k) w s =
  match m w s with
  | (Ok a, s') => k a w s'
  | (Panic msg, s') => (Panic msg, s')
  end.
Proof. reflexivity. Qed.

Lemma run_ret {A : Type} (a : A) (w : World) (s : State) : mret (M := M) a w s = (Ok a, s).
Proof. reflexivity. Qed.

(** ** Reading back the layers *)

Lemma advance_0 (s : State) : advance 0 s = s.
Proof. destruct s; unfold advance; simpl. f_equal. lia. Qed.

Lemma readings_cons (sl : ScheduleLayer) (v : list ScheduleLayer) :
  readings (sl :: v) = ((if ended sl then 1 else 0) + readings v)%nat.
Proof.
  unfold readings. rewrite filter_cons. case_decide as Hd.
  - by rewrite Hd.
  - by destruct (ended sl).
Qed.

Lemma ends_parse_cons (sl : ScheduleLayer) (v : list ScheduleLayer) :
  ends_parse (sl :: v) → (ended sl = true → is_Some (time_Parse (endStr sl))) ∧ ends_parse v.
Proof.
  intros Hp. split; [apply Hp; left|]. intros sl' Hin. apply Hp. by right.
Qed.

Lemma flattenLoop_run (v : list ScheduleLayer) :
  ∀ (acc : list (gmap string LVal)) (w : World) (s : State),
    ends_parse v →
    flattenLoop v acc w s
    = (Ok (inr (acc ++ (flat <$> visible (clock w) (tick s) v))), advance (readings v) s).
Proof.
  induction v as [|sl rest IH]; intros acc w s Hp.
  - simpl. rewrite app_nil_r. by rewrite advance_0.
  - apply ends_parse_cons in Hp as [Hsl Hp]. rewrite readings_cons.
    cbn [flattenLoop visible]. fold (endStr sl). fold (ended sl).
    destruct (ended sl) eqn:He.
    + destruct (Hsl eq_refl) as [e Hparse]. unfold timeToUTC. rewrite Hparse.
      rewrite run_bind. unfold time_Now at 1. cbn iota beta.
      destruct (e <? clock w (tick s)).
      * rewrite IH by done. simpl. f_equal. unfold advance; simpl. f_equal. lia.
      * rewrite IH by done. simpl. rewrite <- app_assoc. simpl. f_equal.
        unfold advance; simpl. f_equal. lia.
    + rewrite IH by done. rewrite <- app_assoc. simpl. done.
Qed.

Lemma reverseLoop_take {A : Type} (i : nat) (xs acc : list A) :
  (i ≤ length xs)%nat → reverseLoop i xs acc = acc ++ reverse (take i xs).
Proof.
  revert acc. induction i as [|i IH]; intros acc Hi; simpl.
  - by rewrite app_nil_r.
  - destruct (lookup_lt_is_Some_2 xs i) as [x Hx]; [lia|].
    rewrite Hx. simpl. rewrite IH by lia.
    rewrite (take_S_r _ _ _ Hx), reverse_app, <- app_assoc. done.
Qed.

Lemma flattenScheduleLayers_run (v : list ScheduleLayer) (w : World) (s : State) :
  ends_parse v →
  flattenScheduleLayers v w s
  = (Ok (inr (reverse (flat <$> visible (clock w) (tick s) v))), advance (readings v) s).
Proof.
  intros Hp. unfold flattenScheduleLayers. rewrite run_bind, flattenLoop_run by done.
  simpl. rewrite run_ret. rewrite reverseLoop_take by done. by rewrite firstn_all.
Qed.

Lemma visible_sublist (now : nat -> Z) (v : list ScheduleLayer) :
  ∀ k, sublist (visible now k v) v.
Proof.
  induction v as [|sl rest IH]; intros k; simpl; [constructor|].
  destruct (ended sl).
  - destruct (time_Parse (endStr sl)) as [e|]; [destruct (e <? now k)|];
      try (by constructor); by apply sublist_cons.
  - by constructor.
Qed.

Lemma visible_keeps (now : nat -> Z) (sl : ScheduleLayer) (v : list ScheduleLayer) :
  ∀ k, sl ∈ v →
    (ended sl = false ∨
     ∃ e, time_Parse (endStr sl) = Some e ∧
          ∀ j, (k ≤ j < k + readings v)%nat → now j ≤ e) →
    sl ∈ visible now k v.
Proof.
  induction v as [|x rest IH]; intros k Hin Hkeep; [inversion Hin|].
  rewrite readings_cons in Hkeep. apply elem_of_cons in Hin as [<- | Hin].
  - simpl. destruct Hkeep as [-> | (e & -> & Hnow)]; [left|].
    destruct (ended sl) eqn:He; [|left].
    specialize (Hnow k). destruct (Z.ltb_spec e (now k)); [lia | left].
  - simpl. destruct (ended x) eqn:Hx.
    + assert (sl ∈ visible now (S k) rest) as Hrest.
      { apply IH; [done|]. destruct Hkeep as [?|(e & ? & Hnow)]; [by left|right].
        exists e. split; [done|]. intros j Hj. apply Hnow. lia. }
      destruct (time_Parse (endStr x)) as [e|]; [destruct (e <? now k)|];
        try done; by right.
    + right. apply IH; [done|]. destruct Hkeep as [?|(e & ? & Hnow)]; [by left|right].
      exists e. split; [done|]. intros j Hj. apply Hnow. lia.
Qed.

Lemma visible_drops (now : nat -> Z) (sl : ScheduleLayer) (v : list ScheduleLayer) :
  ∀ k e, ended sl = true → time_Parse (endStr sl) = Some e →
    (∀ j, (k ≤ j < k + readings v)%nat → e < now j) →
    sl ∉ visible now k v.
Proof.
  induction v as [|x rest IH]; intros k e He Hparse Hnow; simpl; [by apply not_elem_of_nil|].
  rewrite readings_cons in Hnow.
  destruct (ended x) eqn:Hx.
  - assert (sl ∉ visible now (S k) rest) as Hrest.
    { apply (IH _ e); [done..|]. intros j Hj. apply Hnow. lia. }
    destruct (time_Parse (endStr x)) as [e'|] eqn:Hpx; [|done].
    destruct (Z.ltb_spec e' (now k)) as [Hlt|Hge]; [done|].
    apply not_elem_of_cons. split; [|done]. intros ->.
    specialize (Hnow k). rewrite Hparse in Hpx. injection Hpx as ->. lia.
  - apply not_elem_of_cons. split; [intros ->; congruence|].
    apply (IH _ e); [done..|]. intros j Hj. apply Hnow. lia.
Qed.

(** ** What a computation adds to the trace *)

Lemma emits_weaken {A : Type} (Q Q' : option Z -> Event -> Prop) (m : M A) :
  (∀ dl ev, Q dl ev → Q' dl ev) → emits Q m → emits Q' m.
Proof.
  intros HQ Hm w s. destruct (Hm w s) as (evs & Ht & Hd & Hall).
  exists evs. repeat split; [done..|]. eapply Forall_impl; [done|]. apply HQ.
Qed.

Lemma emits_ret {A : Type} (Q : option Z -> Event -> Prop) (a : A) : emits Q (mret a).
Proof. intros w s. exists []. simpl. by rewrite app_nil_r. Qed.

Lemma emits_bind {A B : Type} (Q : option Z -> Event -> Prop) (m : M A) (k : A -> M B) :
  emits Q m → (∀ a, emits Q (k a)) → emits Q (m ≫= k).
Proof.
  intros Hm Hk w s. rewrite run_bind.
  destruct (Hm w s) as (evs & Ht & Hd & Hall).
  destruct (m w s) as [[a|msg] s1]; simpl in *.
  - destruct (Hk a w s1) as (evs' & Ht' & Hd' & Hall').
    exists (evs ++ evs'). rewrite Ht', Ht, Hd', Hd, app_assoc. repeat split; [done..|].
    apply Forall_app. split; [done|]. by rewrite <- Hd.
  - by exists evs.
Qed.

Lemma emits_call {A : Type} (Q : option Z -> Event -> Prop) (r : Request)
    (answer : World -> list Event -> A) :
  (∀ dl, Q dl (EvCall dl r)) → emits Q (call r answer).
Proof. intros HQ w s. exists [EvCall (deadline s) r]. simpl. by repeat constructor. Qed.

Lemma emits_Sleep (Q : option Z -> Event -> Prop) (d : Z) :
  (∀ dl, Q dl (EvSleep d)) → emits Q (time_Sleep d).
Proof. intros HQ w s. exists [EvSleep d]. simpl. by repeat constructor. Qed.

Lemma emits_silent {A : Type} (Q : option Z -> Event -> Prop) (m : M A) :
  (∀ w s, trace (m w s).2 = trace s ∧ deadline (m w s).2 = deadline s) → emits Q m.
Proof.
  intros Hm w s. destruct (Hm w s) as [Ht Hd]. exists []. by rewrite app_nil_r.
Qed.

Lemma emits_Now (Q : option Z -> Event -> Prop) : emits Q time_Now.
Proof. by apply emits_silent. Qed.
Lemma emits_getData (Q : option Z -> Event -> Prop) : emits Q getData.
Proof. by apply emits_silent. Qed.
Lemma emits_Client (Q : option Z -> Event -> Prop) : emits Q Client.
Proof. by apply emits_silent. Qed.
Lemma emits_Set (Q : option Z -> Event -> Prop) (key : string) (v : SetValue) :
  emits Q (d_Set key v).
Proof. by apply emits_silent. Qed.
Lemma emits_SetId (Q : option Z -> Event -> Prop) (id : string) : emits Q (d_SetId id).
Proof. by apply emits_silent. Qed.
Lemma emits_lift {A : Type} (Q : option Z -> Event -> Prop) (o : Outcome A) : emits Q (lift o).
Proof. by apply emits_silent. Qed.
Lemma emits_panic {A : Type} (Q : option Z -> Event -> Prop) (msg : string) :
  emits Q (panic (A := A) msg).
Proof. by apply emits_silent. Qed.

Lemma emits_retryLoop {C : Type} (Q : option Z -> Event -> Prop) (n : nat)
    (f : C -> M (C * option RetryError)) :
  (∀ c, emits Q (f c)) → ∀ c, emits Q (retryLoop n f c).
Proof.
  intros Hf. induction n as [|n IH]; intros c; simpl.
  - apply emits_bind; [done|]. intros [c' [[e|e]|]]; apply emits_ret.
  - apply emits_bind; [done|]. intros [c' [[e|e]|]]; simpl; [apply IH | apply emits_ret..].
Qed.

Lemma emits_Retry {C : Type} (Q Q' : option Z -> Event -> Prop) (timeout : Z)
    (f : C -> M (C * option RetryError)) (c : C) :
  (∀ c, emits Q' (f c)) → (∀ dl ev, Q' (Some timeout) ev → Q dl ev) →
  emits Q (Retry timeout f c).
Proof.
  intros Hf HQ w s. unfold Retry.
  destruct (emits_retryLoop Q' (attempts w (trace s) timeout) f Hf c w
              (set_deadline (Some timeout) s)) as (evs & Ht & Hd & Hall).
  exists evs. simpl in *. repeat split; [done..|].
  eapply Forall_impl; [done|]. intros ev. apply HQ.
Qed.

Lemma emits_events {A : Type} (Q : option Z -> Event -> Prop) (m : M A) (w : World) (s : State) :
  emits Q m → Forall (Q (deadline s)) (events_of m w s).
Proof.
  intros Hm. destruct (Hm w s) as (evs & Ht & _ & Hall).
  unfold events_of. by rewrite Ht, drop_app_length.
Qed.

Lemma emits_trace {A : Type} (Q : option Z -> Event -> Prop) (m : M A) (w : World) (s : State) :
  emits Q m → trace (m w s).2 = trace s ++ events_of m w s.
Proof.
  intros Hm. destruct (Hm w s) as (evs & Ht & _ & Hall).
  unfold events_of. by rewrite Ht, drop_app_length.
Qed.

(** The structure of a computation decides what it emits: binds,
    matches on a result, and the operations of the monad. *)
Ltac emits_step :=
  match goal with
  | |- emits _ (mbind _ _) => apply emits_bind; [|intros ?]
  | |- emits _ (mret _) => apply emits_ret
  | |- emits _ (time_Sleep _) => apply emits_Sleep; intros ?
  | |- emits _ time_Now => apply emits_Now
  | |- emits _ getData => apply emits_getData
  | |- emits _ Client => apply emits_Client
  | |- emits _ (d_Set _ _) => apply emits_Set
  | |- emits _ (d_SetId _) => apply emits_SetId
  | |- emits _ (lift _) => apply emits_lift
  | |- emits _ (panic _) => apply emits_panic
  | |- emits _ (call _ _) => apply emits_call; intros ?
  | |- emits _ (match ?x with _ => _ end) => destruct x
  | |- emits _ (if ?x then _ else _) => destruct x
  end.
Ltac emits_all := repeat emits_step.

(** The error [resource.Retry] returns is the error of the run of the
    closure that ended the loop. *)
Lemma retryLoop_last_error {C : Type} (n : nat) (f : C -> M (C * option RetryError)) :
  ∀ (c c' : C) (w : World) (s s' : State) (e : GoError),
    retryLoop n f c w s = (Ok (c', Some e), s') →
    ∃ c0 s0, f c0 w s0 = (Ok (c', Some (RetryableError e)), s')
             ∨ f c0 w s0 = (Ok (c', Some (NonRetryableError e)), s').
Proof.
  induction n as [|n IH]; intros c c' w s s' e; cbn [retryLoop]; rewrite run_bind;
    destruct (f c w s) as [[[c1 [[e1|e1]|]]|msg] s1] eqn:Hf; cbn [fst snd];
    rewrite ?run_ret; try done.
  - intros [= <- <- <-]. eauto.
  - intros [= <- <- <-]. eauto.
  - apply IH.
  - intros [= <- <- <-]. eauto.
Qed.


Lemma emits_Retry_under {C : Type} (Q : option Z -> Event -> Prop) (timeout : Z)
    (good : Event -> Prop) (f : C -> M (C * option RetryError)) (c : C) :
  (∀ c, emits (under timeout good) (f c)) → (∀ dl ev, good ev → Q dl ev) →
  emits Q (Retry timeout f c).
Proof.
  intros Hf HQ. apply (emits_Retry _ (under timeout good)); [done|].
  intros dl ev Hev. apply HQ. by apply Hev.
Qed.

Ltac event_ok :=
  unfold under, always, create_event, delete_event, compensation_event, scan_event,
    update_event, read_event, sleeps_2s in *;
  intros; simplify_eq; eauto 10.

Lemma emits_flattenLoop (Q : option Z -> Event -> Prop) (v : list ScheduleLayer) :
  ∀ acc, emits Q (flattenLoop v acc).
Proof.
  induction v as [|sl rest IH]; intros acc; simpl; [apply emits_ret|].
  destruct (negb _); [|apply IH].
  destruct (timeToUTC _); [apply emits_ret|].
  apply emits_bind; [apply emits_Now|]. intros now. destruct (_ <? _); apply IH.
Qed.

Lemma emits_flattenScheduleLayers (Q : option Z -> Event -> Prop) (v : list ScheduleLayer) :
  emits Q (flattenScheduleLayers v).
Proof.
  unfold flattenScheduleLayers. apply emits_bind; [apply emits_flattenLoop|].
  intros [err|ls]; apply emits_ret.
Qed.

Lemma emits_readAttempt (c : unit) :
  emits (under (30 * time_Second) read_event) (readAttempt c).
Proof.
  unfold readAttempt, Schedules_Get.
  apply emits_bind; [apply emits_getData|]. intros d.
  apply emits_bind; [apply emits_call; event_ok|]. intros [err|[schedule|]].
  - emits_all; event_ok.
  - do 3 (apply emits_bind; [apply emits_Set|]; intros _).
    apply emits_bind; [apply emits_flattenScheduleLayers|]. intros [err|layers]; emits_all.
  - apply emits_ret.
Qed.




Lemma emits_updateAttempt (id : string) (schedule : Schedule) (overflow : bool) (c : unit) :
  emits (under (2 * time_Minute) update_event) (updateAttempt id schedule overflow c).
Proof.
  unfold updateAttempt, Schedules_Update.
  apply emits_bind; [apply emits_call; event_ok|]. intros [err|]; apply emits_ret.
Qed.


Lemma emits_fetchAttempt (id : string) (c : option Schedule) :
  emits (under (10 * time_Second) scan_event) (fetchAttempt id c).
Proof.
  unfold fetchAttempt, Schedules_Get.
  apply emits_bind; [apply emits_call; event_ok|]. intros [err|resp]; emits_all; event_ok.
Qed.

Lemma emits_listAttempt (teams : list string) (c : list string) :
  emits (under (10 * time_Second) scan_event) (listAttempt teams c).
Proof.
  unfold listAttempt, Incidents_ListAll.
  apply emits_bind; [apply emits_call; event_ok|]. intros [err|resp]; emits_all; event_ok.
Qed.

Lemma emits_listIncidents (id : string) :
  emits (always scan_event) (listIncidentsOpenedRelatedToSchedule id).
Proof.
  unfold listIncidentsOpenedRelatedToSchedule.
  apply emits_bind.
  - apply (emits_Retry_under _ _ scan_event); [apply emits_fetchAttempt | done].
  - intros [[s|] [e|]]; simpl; emits_all.
    apply (emits_Retry_under _ _ scan_event); [apply emits_listAttempt | done].
Qed.

Lemma emits_extractEPs (id : string) :
  emits (always scan_event) (extractEPsAssociatedToSchedule id).
Proof.
  unfold extractEPsAssociatedToSchedule.
  apply emits_bind.
  - apply (emits_Retry_under _ _ scan_event); [apply emits_fetchAttempt | done].
  - intros [[s|] [e|]]; simpl; emits_all.
Qed.

Lemma emits_writeBackAttempt (ep : EscalationPolicy) (c : unit) :
  emits (under (10 * time_Second) compensation_event) (writeBackAttempt ep c).
Proof.
  unfold writeBackAttempt, EscalationPolicies_Update.
  apply emits_bind; [apply emits_call; event_ok|]. intros [err|]; emits_all.
Qed.

Lemma emits_removeScheduleFromEP (scheduleID : string) (ep : EscalationPolicy) :
  emits (always compensation_event) (removeScheduleFromEP scheduleID ep).
Proof.
  unfold removeScheduleFromEP.
  apply emits_bind; [apply emits_lift|]. intros st.
  destruct (negb (needsToUpdate st)); [apply emits_ret|].
  apply emits_bind.
  - apply (emits_Retry_under _ _ compensation_event); [apply emits_writeBackAttempt | done].
  - intros [c [e|]]; apply emits_ret.
Qed.

Lemma emits_policyAttempt (epID : string) (c : option EscalationPolicy) :
  emits (under (10 * time_Second) compensation_event) (policyAttempt epID c).
Proof.
  unfold policyAttempt, EscalationPolicies_Get.
  apply emits_bind; [apply emits_call; event_ok|]. intros [err|resp]; emits_all.
Qed.

Lemma emits_dissociate (scheduleID : string) (eps : list string) :
  emits (always compensation_event) (dissociateScheduleFromEPs scheduleID eps).
Proof.
  induction eps as [|epID rest IH]; simpl; [apply emits_ret|].
  apply emits_bind.
  - apply (emits_Retry_under _ _ compensation_event); [apply emits_policyAttempt | done].
  - intros [[ep|] [e|]]; simpl; try apply emits_ret; [|done].
    apply emits_bind; [apply emits_removeScheduleFromEP|]. intros [e|]; [apply emits_ret|done].
Qed.

Lemma emits_deleteAttempt (scheduleId : string) (eps : list string) (c : unit) :
  emits (under (2 * time_Minute) delete_event) (deleteAttempt scheduleId eps c).
Proof.
  unfold deleteAttempt, Schedules_Delete.
  apply emits_bind; [apply emits_call; event_ok|]. intros [err|]; [|apply emits_ret].
  destruct (negb (isErrCode err 400)); [apply emits_ret|].
  destruct (notTheConflict err); [apply emits_ret|].
  apply emits_bind.
  - eapply emits_weaken; [|apply emits_dissociate]. event_ok.
  - intros [werr|]; apply emits_ret.
Qed.



(** ** The view of the layers *)

(** C2, as amended: when every end of the remote layers is empty or
    parses, the read keeps a sublist of them and returns it in reverse
    of the remote order. A layer with no end is kept. A layer whose end
    is not before any reading of the clock the call takes is kept, so
    an end that is in the future or is the very instant of the reading
    stays visible; a layer whose end is before every such reading is
    dropped. *)
Theorem flattenScheduleLayers_view (v : list ScheduleLayer) (w : World) (s : State) :
  ends_parse v →
  ∃ kept s',
    flattenScheduleLayers v w s = (Ok (inr (reverse (flat <$> kept))), s') ∧
    sublist kept v ∧
    (∀ sl, sl ∈ v → ended sl = false → sl ∈ kept) ∧
    (∀ sl e, sl ∈ v → ended sl = true → time_Parse (endStr sl) = Some e →
       ((∀ j, (tick s ≤ j < tick s')%nat → clock w j ≤ e) → sl ∈ kept) ∧
       ((∀ j, (tick s ≤ j < tick s')%nat → e < clock w j) → sl ∉ kept)).
Proof.
  intros Hp. exists (visible (clock w) (tick s) v), (advance (readings v) s).
  split; [by apply flattenScheduleLayers_run|].
  split; [apply visible_sublist|]. split.
  - intros sl Hin He. apply visible_keeps; [done | by left].
  - intros sl e Hin He Hparse. split; intros Hnow.
    + apply visible_keeps; [done|]. right. by exists e.
    + by apply (visible_drops _ _ _ _ e).
Qed.


(** Without the condition on the ends: what the first loop returns,
    when it returns layers, are the maps of a sublist of its input. *)
Lemma flattenLoop_sublist (v : list ScheduleLayer) :
  ∀ acc w s out s', flattenLoop v acc w s = (Ok (inr out), s') →
    ∃ kept, out = acc ++ (flat <$> kept) ∧ sublist kept v.
Proof.
  induction v as [|sl rest IH]; intros acc w s out s' Hrun.
  - injection Hrun as <- <-. exists []. by rewrite app_nil_r.
  - cbn [flattenLoop] in Hrun. fold (endStr sl) in Hrun.
    destruct (negb (String.eqb (endStr sl) "")).
    + destruct (timeToUTC (endStr sl)) as [err|e]; [done|].
      rewrite run_bind in Hrun. unfold time_Now at 1 in Hrun. cbn iota beta in Hrun.
      destruct (e <? _).
      * apply IH in Hrun as (kept & -> & Hsub). exists kept. split; [done | by constructor].
      * apply IH in Hrun as (kept & -> & Hsub). exists (sl :: kept).
        rewrite <- app_assoc. split; [done | by constructor].
    + apply IH in Hrun as (kept & -> & Hsub). exists (sl :: kept).
      rewrite <- app_assoc. split; [done | by constructor].
Qed.

Lemma flattenRestriction_day (slr : Restriction) :
  flattenRestriction slr !! "start_day_of_week"
  = if 0 <? r_StartDayOfWeek slr then Some (RInt (r_StartDayOfWeek slr)) else None.
Proof.
  unfold flattenRestriction. destruct (0 <? r_StartDayOfWeek slr).
  - by rewrite lookup_insert_eq.
  - done.
Qed.

Lemma flattenLayer_restriction (sl : ScheduleLayer) (e : string) :
  flattenLayer sl e !! "restriction"
  = Some (LRestrictions (flattenRestriction <$> sl_Restrictions sl)).
Proof. unfold flattenLayer. by rewrite lookup_insert_eq. Qed.

(** C8: in every layer that is read back, the map of a restriction has
    the key [start_day_of_week] exactly when the restriction's
    [StartDayOfWeek] is greater than zero, and then with that value. *)
Theorem start_day_of_week_only_when_positive (v : list ScheduleLayer) (w : World)
    (s s' : State) (view : list (gmap string LVal)) :
  flattenScheduleLayers v w s = (Ok (inr view), s') →
  ∀ m, m ∈ view →
    ∃ sl rs, sl ∈ v ∧ m !! "restriction" = Some (LRestrictions rs) ∧
      Forall2 (λ slr r,
          (is_Some (r !! "start_day_of_week") ↔ 0 < r_StartDayOfWeek slr) ∧
          (∀ x, r !! "start_day_of_week" = Some x → x = RInt (r_StartDayOfWeek slr)))
        (sl_Restrictions sl) rs.
Proof.
  intros Hrun m Hm. unfold flattenScheduleLayers in Hrun. rewrite run_bind in Hrun.
  destruct (flattenLoop v [] w s) as [[[err|out]|msg] s1] eqn:Hloop; try done.
  apply flattenLoop_sublist in Hloop as (kept & -> & Hsub). simpl in Hrun.
  injection Hrun as <- <-. rewrite reverseLoop_take in Hm by done.
  rewrite firstn_all in Hm. apply elem_of_reverse, list_elem_of_fmap in Hm as (sl & -> & Hsl).
  exists sl, (flattenRestriction <$> sl_Restrictions sl). split; [|split].
  - eapply sublist_submseteq, elem_of_submseteq in Hsub; done.
  - apply flattenLayer_restriction.
  - apply Forall2_fmap_r, Forall_Forall2_diag, Forall_forall. intros slr _. unfold compose.
    rewrite flattenRestriction_day. destruct (Z.ltb_spec 0 (r_StartDayOfWeek slr)).
    + split; [split; eauto | by intros x [= <-]].
    + split; [split; [by intros [x Hx] | lia] | done].
Qed.

(** ** The final schedule *)



(** ** The write set of the update *)










(** ** Deleting *)





Lemma string_app_assoc (s1 s2 s3 : string) : (s1 +:+ s2) +:+ s3 = s1 +:+ s2 +:+ s3.
Proof.
  induction s1 as [|c s1 IH]; [done|].
  change (String c ((s1 +:+ s2) +:+ s3) = String c (s1 +:+ s2 +:+ s3)). by f_equal.
Qed.

Lemma string_app_nil_r (s : string) : s +:+ "" = s.
Proof.
  induction s as [|c s IH]; [done|]. change (String c (s +:+ "") = String c s). by f_equal.
Qed.

Lemma urlLinksMessage_fold (links : list string) (msg : string) :
  fold_left (λ msg incident, msg +:+ newline +:+ incident) links msg
  = msg +:+ urlLinksMessage links.
Proof.
  unfold urlLinksMessage. revert msg.
  induction links as [|url rest IH]; intros msg; cbn [fold_left].
  - by rewrite string_app_nil_r.
  - rewrite IH, (IH ("" +:+ newline +:+ url)).
    change ("" +:+ newline +:+ url) with (newline +:+ url). by rewrite !string_app_assoc.
Qed.

Lemma urlLinksMessage_occurs (links : list string) (url : string) :
  url ∈ links → occurs_in url (urlLinksMessage links).
Proof.
  induction links as [|x rest IH]; intros Hin; [inversion Hin|].
  unfold urlLinksMessage. cbn [fold_left]. rewrite urlLinksMessage_fold.
  change ("" +:+ newline +:+ x) with (newline +:+ x).
  apply elem_of_cons in Hin as [-> | Hin].
  - exists newline, (urlLinksMessage rest). by rewrite !string_app_assoc.
  - destruct (IH Hin) as (pre & post & ->).
    exists ((newline +:+ x) +:+ pre), post. by rewrite !string_app_assoc.
Qed.

Lemma scan_event_reads_only (ev : Event) : scan_event ev → reads_only ev.
Proof. by intros [->|[[id ->]|[o ->]]]. Qed.

(** C4: when the scan finds an open incident, the delete returns an
    error whose message holds the URL of every incident found, and all
    it has called are the fetches and the incident listing of the scan:
    [Schedules.Delete] is not called. *)
Theorem delete_blocked_by_open_incidents (w : World) (s s1 s2 : State)
    (eps links : list string) :
  Config_Client w = None →
  extractEPsAssociatedToSchedule (d_Id (data s)) w s = (Ok (eps, None), s1) →
  listIncidentsOpenedRelatedToSchedule (d_Id (data s)) w s1 = (Ok (links, None), s2) →
  links ≠ [] →
  ∃ err,
    resourcePagerDutyScheduleDelete w s = (Ok (Some err), s2) ∧
    (∀ url, url ∈ links → occurs_in url (Error err)) ∧
    Forall reads_only (events_of resourcePagerDutyScheduleDelete w s) ∧
    (∀ dl id, EvCall dl (SchedulesDelete id) ∉ events_of resourcePagerDutyScheduleDelete w s).
Proof.
  intros Hc Heps Hlinks Hne.
  assert (resourcePagerDutyScheduleDelete w s
          = (Ok (Some (openIncidentsError (d_Id (data s)) links)), s2)) as Hrun.
  { unfold resourcePagerDutyScheduleDelete. rewrite run_bind. unfold Client at 1.
    cbn iota beta. rewrite Hc, run_bind. unfold getData at 1. cbn iota beta.
    rewrite run_bind, Heps. cbn iota beta. simpl. rewrite run_bind, Hlinks. simpl.
    destruct links; [done|]. done. }
  assert (Forall reads_only (events_of resourcePagerDutyScheduleDelete w s)) as Hreads.
  { unfold events_of. rewrite Hrun. simpl.
    pose proof (emits_trace _ _ w s (emits_extractEPs (d_Id (data s)))) as H1.
    pose proof (emits_events _ _ w s (emits_extractEPs (d_Id (data s)))) as E1.
    pose proof (emits_trace _ _ w s1 (emits_listIncidents (d_Id (data s)))) as H2.
    pose proof (emits_events _ _ w s1 (emits_listIncidents (d_Id (data s)))) as E2.
    rewrite Heps in H1. rewrite Hlinks in H2. simpl in H1, H2.
    rewrite H2, H1, <- app_assoc, drop_app_length. apply Forall_app. split.
    - eapply Forall_impl; [exact E1|]. apply scan_event_reads_only.
    - eapply Forall_impl; [exact E2|]. apply scan_event_reads_only. }
  exists (openIncidentsError (d_Id (data s)) links). split; [done|]. split; [|split; [done|]].
  - intros url Hurl. destruct (urlLinksMessage_occurs links url Hurl) as (pre & post & Hocc).
    unfold openIncidentsError, Error. rewrite Hocc.
    exists ("Before Removing Schedule " +:+ Sprintf_q (d_Id (data s))
      +:+ " You must first resolve the following incidents related with Escalation Policies using this Schedule... "
      +:+ pre), post.
    by rewrite !string_app_assoc.
  - intros dl id Hin. by eapply Forall_forall in Hreads; [|exact Hin].
Qed.

(** ** The scan for open incidents *)






(** ** The compensation *)

(** A policy that is gone when it is fetched is passed over. *)
Lemma policy_gone_is_skipped (scheduleID epID : string) (eps : list string)
    (w : World) (s : State) (err : GoError) :
  remote_EscalationPolicies_Get w (trace s) epID = inl err →
  isErrCode err 404 = true →
  dissociateScheduleFromEPs scheduleID (epID :: eps) w s
  = dissociateScheduleFromEPs scheduleID eps w
      (emit (EvCall (Some (10 * time_Second)) (EscalationPoliciesGet epID)) s).
Proof.
  intros Hget H404. cbn [dissociateScheduleFromEPs]. rewrite run_bind.
  assert (Retry (10 * time_Second) (policyAttempt epID) None w s
          = (Ok (None, None),
             emit (EvCall (Some (10 * time_Second)) (EscalationPoliciesGet epID)) s)) as ->.
  { unfold Retry.
    assert (∀ n, retryLoop n (policyAttempt epID) None w (set_deadline (Some (10 * time_Second)) s)
                 = (Ok (None, None),
                    emit (EvCall (Some (10 * time_Second)) (EscalationPoliciesGet epID))
                      (set_deadline (Some (10 * time_Second)) s))) as ->.
    { intros n. destruct n; cbn [retryLoop]; rewrite run_bind; unfold policyAttempt;
        rewrite run_bind; unfold EscalationPolicies_Get, call at 1; cbn iota beta;
        cbn [trace set_deadline]; by rewrite Hget, H404. }
    by destruct s. }
  done.
Qed.

(** A run of the write-back loop starts with the write-back. *)
Lemma writeBackAttempts_start (written : EscalationPolicy) (n : nat) (w : World) (s : State) :
  ∃ rest, trace (retryLoop n (writeBackAttempt written) tt w s).2
          = trace s ++ EvCall (deadline s) (EscalationPoliciesUpdate (ep_ID written) written)
                       :: rest.
Proof.
  pose proof (λ k, emits_retryLoop (λ _ _, True) k _
    (λ c, emits_weaken _ _ _ (λ _ _ _, I) (emits_writeBackAttempt written c))) as Hloop.
  destruct n as [|n]; cbn [retryLoop]; rewrite run_bind; unfold writeBackAttempt at 1;
    rewrite run_bind; unfold EscalationPolicies_Update, call at 1; cbn iota beta;
    destruct (remote_EscalationPolicies_Update w (trace s) (ep_ID written) written)
      as [err|]; cbn iota beta; try destruct (negb (isErrCode err 404));
    rewrite ?run_ret; cbn iota beta; cbn [fst snd]; try (by exists []).
  destruct (Hloop n tt w (emit (EvCall (deadline s)
              (EscalationPoliciesUpdate (ep_ID written) written)) s)) as (evs & -> & _).
  simpl. rewrite <- app_assoc. by eexists.
Qed.

(** The policy is written back exactly when the loops removed
    something, and then with the rules [epr] stands for. *)
Lemma write_back_iff_changed (scheduleID : string) (ep : EscalationPolicy) (st : Removal)
    (w : World) (s : State) :
  removeScheduleLoops scheduleID (ep_EscalationRules ep) = Ok st →
  if needsToUpdate st then
    ∃ rest, events_of (removeScheduleFromEP scheduleID ep) w s
            = EvCall (Some (10 * time_Second))
                (EscalationPoliciesUpdate (ep_ID ep)
                   {| ep_ID := ep_ID ep; ep_Name := ep_Name ep;
                      ep_EscalationRules := store_rules st |}) :: rest
  else removeScheduleFromEP scheduleID ep w s = (Ok None, s).
Proof.
  intros Hloops. destruct (needsToUpdate st) eqn:Hneeds.
  2: { unfold removeScheduleFromEP. rewrite run_bind, Hloops. unfold lift at 1.
       cbn iota beta. by rewrite Hneeds. }
  unfold events_of, removeScheduleFromEP. rewrite run_bind, Hloops.
  unfold lift at 1. cbn iota beta. rewrite Hneeds. cbn [negb].
  rewrite run_bind. unfold Retry at 1.
  destruct (writeBackAttempts_start
              {| ep_ID := ep_ID ep; ep_Name := ep_Name ep;
                 ep_EscalationRules := store_rules st |}
              (attempts w (trace s) (10 * time_Second)) w
              (set_deadline (Some (10 * time_Second)) s)) as [rest Hrest].
  simpl in Hrest.
  destruct (retryLoop _ _ _ _ _) as [[[[] [e|]]|msg] s1]; simpl in Hrest |- *;
    rewrite Hrest, drop_app_length; by eexists.
Qed.
End Properties.

(** * Concrete runs *)

Section Runs.
Import Sample Inputs.






Lemma ends_parse_remote_layers : ends_parse remote_layers.
Proof.
  intros sl Hin He. unfold remote_layers in Hin.
  repeat (apply elem_of_cons in Hin as [-> | Hin]);
    [vm_compute; eauto.. | vm_compute in He; discriminate | inversion Hin].
Qed.

(** The read of four remote layers at a clock that stands still. *)
Lemma flattenScheduleLayers_view_witness :
  ∃ kept s',
    flattenScheduleLayers remote_layers still (start plan)
    = (Ok (inr (reverse (flat <$> kept))), s') ∧
    sublist kept remote_layers ∧
    (∀ sl, sl ∈ remote_layers → ended sl = false → sl ∈ kept) ∧
    (∀ sl e, sl ∈ remote_layers → ended sl = true → time_Parse (endStr sl) = Some e →
       ((∀ j, (tick (start plan) ≤ j < tick s')%nat → clock still j ≤ e) → sl ∈ kept) ∧
       ((∀ j, (tick (start plan) ≤ j < tick s')%nat → e < clock still j) → sl ∉ kept)).
Proof.
  apply (flattenScheduleLayers_view remote_layers still (start plan)).
  exact ends_parse_remote_layers.
Defined.

(** C2, as worded, fails: the end of the layer is the very instant the
    clock reads, so it is not after the current time, and the layer is
    in the view. *)
Lemma layer_ending_now_is_visible :
  (flattenScheduleLayers [ends_now] still (start plan)).1 = Ok (inr [flat ends_now]) ∧
  time_Parse (endStr ends_now) = Some T0 ∧
  T0 ≤ clock still (tick (start plan)).
Proof. split; [reflexivity|]. split; [reflexivity|]. vm_compute. discriminate. Qed.



(** The scan finds one open incident. *)
Lemma delete_blocked_by_open_incidents_witness :
  ∃ err,
    resourcePagerDutyScheduleDelete open_incident (start plan)
    = (Ok (Some err),
       (listIncidentsOpenedRelatedToSchedule "PSCHED" open_incident
          (extractEPsAssociatedToSchedule "PSCHED" open_incident (start plan)).2).2) ∧
    (∀ url, url ∈ ["https://acme.pagerduty.com/incidents/Q1"] → occurs_in url (Error err)) ∧
    Forall reads_only (events_of resourcePagerDutyScheduleDelete open_incident (start plan)) ∧
    (∀ dl id, EvCall dl (SchedulesDelete id)
              ∉ events_of resourcePagerDutyScheduleDelete open_incident (start plan)).
Proof.
  apply (delete_blocked_by_open_incidents open_incident (start plan)
           (extractEPsAssociatedToSchedule "PSCHED" open_incident (start plan)).2
           (listIncidentsOpenedRelatedToSchedule "PSCHED" open_incident
              (extractEPsAssociatedToSchedule "PSCHED" open_incident (start plan)).2).2
           ["PEP"] ["https://acme.pagerduty.com/incidents/Q1"]).
  - reflexivity.
  - reflexivity.
  - reflexivity.
  - discriminate.
Defined.

(** What the loops of [removeScheduleFromEP] are written for: a rule
    with the schedule as its only target is dropped, and a rule with
    another target besides loses the schedule only. *)
Lemma removeScheduleLoops_single_rule :
  rules_after (removeScheduleLoops "PSCHED" [rule "PRULE1" [to_schedule]]) = Ok (true, []) ∧
  rules_after (removeScheduleLoops "PSCHED" [rule "PRULE1" [to_user "PUSER1"; to_schedule]])
  = Ok (true, [rule "PRULE1" [to_user "PUSER1"]]) ∧
  rules_after (removeScheduleLoops "PSCHED" [rule "PRULE1" [to_user "PUSER1"]])
  = Ok (false, [rule "PRULE1" [to_user "PUSER1"]]).
Proof. repeat split; reflexivity. Qed.

(** C5, the defect: on a policy whose two rules both have the schedule
    as their only target, the second removal re-slices [epr], now of
    length one, from index two; the loops panic, and so do the
    compensation and the delete that runs it, and no policy is written
    back. *)
Theorem compensation_panics_on_two_rules :
  removeScheduleLoops "PSCHED" (ep_EscalationRules two_rules) = Panic slice_bounds ∧
  (removeScheduleFromEP "PSCHED" two_rules (in_use two_rules) (start plan)).1
  = Panic slice_bounds ∧
  (resourcePagerDutyScheduleDelete (in_use two_rules) (start plan)).1 = Panic slice_bounds ∧
  write_backs (events_of resourcePagerDutyScheduleDelete (in_use two_rules) (start plan)) = [].
Proof. repeat split; reflexivity. Qed.

(** The same defect without a panic: after the first rule is dropped
    the range skips the rule that moved into its place, so the policy
    that is written back still has the schedule as a target of the
    second rule; the service refuses the delete again, and the next
    compensation removes that target. *)
Lemma compensation_skips_the_next_rule :
  write_backs (events_of (removeScheduleFromEP "PSCHED" three_rules) (in_use three_rules)
                 (start plan))
  = [policy [rule "PRULE2" [to_schedule; to_user "PUSER1"]; rule "PRULE3" [to_user "PUSER2"]]] ∧
  write_backs (events_of resourcePagerDutyScheduleDelete (in_use three_rules) (start plan))
  = [policy [rule "PRULE2" [to_schedule; to_user "PUSER1"]; rule "PRULE3" [to_user "PUSER2"]];
     policy [rule "PRULE2" [to_user "PUSER1"]; rule "PRULE3" [to_user "PUSER2"]]].
Proof. split; reflexivity. Qed.



(** The read of the four remote layers; the layer that ends later and
    has a daily restriction is in the view. *)
Lemma start_day_of_week_only_when_positive_witness :
  ∃ sl rs, sl ∈ remote_layers ∧ flat ends_later !! "restriction" = Some (LRestrictions rs) ∧
    Forall2 (λ slr r,
        (is_Some (r !! "start_day_of_week") ↔ 0 < r_StartDayOfWeek slr) ∧
        (∀ x, r !! "start_day_of_week" = Some x → x = RInt (r_StartDayOfWeek slr)))
      (sl_Restrictions sl) rs.
Proof.
  apply (start_day_of_week_only_when_positive remote_layers still (start plan)
           (flattenScheduleLayers remote_layers still (start plan)).2
           (reverse (flat <$> [ends_now; ends_later; open_ended]))).
  - reflexivity.
  - apply elem_of_reverse, list_elem_of_fmap_2. right. left.
Defined.



End Runs.

(** * The first offence of a plan *)

Section MoreValidation.

Lemma checkRestriction_offence (diff : list RawLayer) (li ri : nat) :
  checkRestriction diff li ri = diff_restriction diff li ri ≫= offence.
Proof.
  unfold checkRestriction, Get_restriction_type, Get_restriction_start_day_of_week,
    Get_restriction_duration_seconds, offence.
  destruct (diff_restriction diff li ri) as [r|]; simpl; [|done].
  destruct (String.eqb_spec (rr_type r) "daily_restriction") as [Ht|Ht]; simpl.
  - rewrite decide_True by done.
    destruct (Z.eqb_spec (rr_start_day_of_week r) 0) as [Hd|Hd]; simpl.
    + rewrite decide_False by lia.
      destruct (Z.leb_spec (3600 * 24) (rr_duration_seconds r)).
      * by rewrite decide_True by lia.
      * by rewrite decide_False by lia.
    + by rewrite decide_True by done.
  - by rewrite decide_False by done.
Qed.

Lemma firstError_lookup {A : Type} (g : A -> option GoError) (l : list A) (b : nat) :
  ∀ a, firstError (λ i, l !! i ≫= g) (seq a b) = head (omap g (take b (drop a l))).
Proof.
  induction b as [|b IH]; intros a; simpl; [done|].
  destruct (l !! a) as [x|] eqn:Hx; simpl.
  - rewrite (drop_S _ _ _ Hx). simpl. destruct (g x); [done|]. apply IH.
  - rewrite IH. apply lookup_ge_None in Hx.
    rewrite !drop_ge by lia. by rewrite !take_nil.
Qed.

Lemma firstError_ext (f g : nat -> option GoError) (indices : list nat) :
  (∀ i, f i = g i) → firstError f indices = firstError g indices.
Proof.
  intros Hfg. induction indices as [|i rest IH]; simpl; [done|]. by rewrite Hfg, IH.
Qed.

Lemma head_omap_join {A B C : Type} (g : B -> option C) (parts : A -> list B) (l : list A) :
  head (omap (λ x, head (omap g (parts x))) l) = head (omap g (mjoin (parts <$> l))).
Proof.
  induction l as [|x rest IH]; simpl; [done|]. rewrite omap_app.
  destruct (omap g (parts x)) as [|e es]; simpl; [apply IH | done].
Qed.

(** X18: the error of [CustomizeDiff] is the error for the first
    restriction, in the order of the plan, that is a
    [daily_restriction] with a [start_day_of_week] or with a duration
    of a day or more; of the two errors the one for [start_day_of_week]
    comes first. The indices one past the end, which the loops also
    visit, never yield an error. *)
Theorem CustomizeDiff_first_offence (diff : list RawLayer) :
  CustomizeDiff diff = head (omap offence (mjoin (rl_restriction <$> diff))).
Proof.
  unfold CustomizeDiff, Get_layer_count.
  rewrite <- head_omap_join.
  rewrite (firstError_ext _ (λ li, diff !! li ≫= λ l, head (omap offence (rl_restriction l)))).
  - rewrite firstError_lookup, drop_0. by rewrite take_ge by lia.
  - intros li. unfold Get_restriction_count.
    rewrite (firstError_ext _ (λ ri, from_option rl_restriction [] (diff !! li) !! ri ≫= offence)).
    + rewrite firstError_lookup, drop_0.
      destruct (diff !! li) as [l|]; simpl; [|done]. by rewrite take_ge by lia.
    + intros ri. rewrite checkRestriction_offence. unfold diff_restriction.
      by destruct (diff !! li).
Qed.
End MoreValidation.

(** * The loops of the compensation *)

Section Removals.
Local Open Scope nat_scope.

Lemma forRange_app {S : Type} (body : nat -> S -> Outcome S) (l1 l2 : list nat) (st : S) :
  forRange body (l1 ++ l2) st
  = match forRange body l1 st with
    | Ok st' => forRange body l2 st'
    | Panic msg => Panic msg
    end.
Proof.
  revert st. induction l1 as [|i l1 IH]; intros st; simpl; [done|].
  destruct (body i st); [apply IH | done].
Qed.

Lemma forRange_id {S : Type} (body : nat -> S -> Outcome S) (l : list nat) (st : S) :
  (∀ i, i ∈ l → body i st = Ok st) → forRange body l st = Ok st.
Proof.
  induction l as [|i l IH]; intros Hbody; simpl; [done|].
  rewrite Hbody by left. apply IH. intros j Hj. apply Hbody. by right.
Qed.

Lemma to_rule_to_object (r : EscalationRule) : to_rule (to_object r) = r.
Proof.
  destruct r as [id delay targets]. unfold to_rule, to_object, elems, slice_of. simpl.
  by rewrite firstn_all.
Qed.

Lemma omap_lookup_seq {A B : Type} (g : A -> B) (l : list A) (b : nat) :
  ∀ a, a + b ≤ length l →
    omap (λ p, g <$> l !! p) (seq a b) = g <$> take b (drop a l).
Proof.
  induction b as [|b IH]; intros a Hab; simpl; [done|].
  destruct (lookup_lt_is_Some_2 l a) as [x Hx]; [lia|].
  rewrite Hx, (drop_S _ _ _ Hx). simpl. f_equal. apply IH. lia.
Qed.

Lemma rules_load (rs : list EscalationRule) : rules (load_rules rs) = to_object <$> rs.
Proof. reflexivity. Qed.

Lemma store_of_objects (os : list RuleObject) (ptrs : Slice nat) (b : bool) :
  store_rules {| rules := os; epr := ptrs; needsToUpdate := b |}
  = omap (λ p, to_rule <$> os !! p) (elems ptrs).
Proof. reflexivity. Qed.

Lemma targetBody_off (scheduleID : string) (ri p index : nat) (st : Removal) (o : RuleObject)
    (t : EscalationTargetReference) :
  rules st !! p = Some o → backing (ro_Targets o) !! index = Some t → off scheduleID t →
  targetBody scheduleID ri p index st = Ok st.
Proof. intros Ho Ht Hoff. unfold targetBody. by rewrite Ho, Ht, Hoff. Qed.

Lemma ruleBody_clean (scheduleID : string) (ri p : nat) (st : Removal) (r : EscalationRule) :
  backing (epr st) !! ri = Some p → rules st !! p = Some (to_object r) →
  free_of scheduleID r →
  ruleBody scheduleID ri st = Ok st.
Proof.
  intros Hp Hr Hfree. unfold ruleBody. rewrite Hp, Hr. apply forRange_id.
  intros i Hi. apply elem_of_seq in Hi. simpl in Hi.
  destruct (lookup_lt_is_Some_2 (er_Targets r) i) as [t Ht]; [lia|].
  apply (targetBody_off _ _ _ _ _ (to_object r) t); [done..|].
  by eapply Forall_lookup in Hfree.
Qed.

(** No rule has the schedule as a target: the loops change nothing. *)
Lemma removeScheduleLoops_free (scheduleID : string) (rs : list EscalationRule) :
  Forall (free_of scheduleID) rs →
  removeScheduleLoops scheduleID rs = Ok (load_rules rs).
Proof.
  intros Hfree. unfold removeScheduleLoops. apply forRange_id.
  intros ri Hri. apply elem_of_seq in Hri.
  destruct (lookup_lt_is_Some_2 rs ri) as [r Hr]; [lia|].
  apply (ruleBody_clean _ _ ri _ r).
  - simpl. apply lookup_seq_lt. lia.
  - by rewrite rules_load, list_lookup_fmap, Hr.
  - by eapply Forall_lookup in Hfree.
Qed.

Lemma store_load (rs : list EscalationRule) : store_rules (load_rules rs) = rs.
Proof.
  unfold load_rules. rewrite store_of_objects. unfold elems, slice_of. simpl.
  rewrite firstn_all. rewrite omap_lookup_seq by (rewrite length_fmap; lia).
  rewrite drop_0, <- (length_fmap to_object), firstn_all, <- list_fmap_compose.
  rewrite <- (list_fmap_id rs) at 2. apply list_fmap_ext. intros i r _. apply to_rule_to_object.
Qed.

(** The inner loop on the rule that has the schedule as one target. *)
Lemma targets_loop (scheduleID : string) (ri p : nat) (st : Removal) (r : EscalationRule)
    (tpre tpost : list EscalationTargetReference) (t : EscalationTargetReference) :
  rules st !! p = Some (to_object r) →
  er_Targets r = tpre ++ t :: tpost →
  isScheduleConfiguredInEscalationRule scheduleID t = true →
  Forall (off scheduleID) tpre → Forall (off scheduleID) tpost →
  forRange (targetBody scheduleID ri p) (seq 0 (length (er_Targets r))) st
  = match tpre ++ tpost with
    | [] =>
        epr' ← remove_index (epr st) ri;
        Ok {| rules := rules st; epr := epr'; needsToUpdate := true |}
    | _ =>
        Ok {| rules :=
                <[p := ro_set_Targets
                         {| backing := tpre ++ tpost
                                       ++ drop (length tpre + length tpost) (er_Targets r);
                            len := length tpre + length tpost |}
                         (to_object r)]> (rules st);
              epr := epr st; needsToUpdate := true |}
    end.
Proof.
  intros Hr Htargets Hon Hpre Hpost.
  assert (length (er_Targets r) = length tpre + S (length tpost)) as Hlen.
  { by rewrite Htargets, length_app. }
  rewrite Hlen, seq_app, forRange_app, forRange_id; cycle 1.
  { intros i Hi. apply elem_of_seq in Hi.
    destruct (lookup_lt_is_Some_2 tpre i) as [t' Ht']; [lia|].
    apply (targetBody_off _ _ _ _ _ (to_object r) t'); [done| |by eapply Forall_lookup in Hpre].
    simpl. rewrite Htargets, lookup_app_l by lia. done. }
  change (0 + length tpre) with (length tpre).
  cbn [seq forRange]. unfold targetBody at 1. rewrite Hr.
  cbn [to_object ro_Targets slice_of backing len]. rewrite Hlen.
  rewrite Htargets at 1. rewrite list_lookup_middle by done. rewrite Hon. cbn [negb].
  destruct (tpre ++ tpost) as [|x rest] eqn:Hrest.
  - apply app_eq_nil in Hrest as [-> ->]. simpl. by destruct (remove_index (epr st) ri).
  - assert (1 ≤ length tpre + length tpost) as Hmore.
    { rewrite <- length_app, Hrest. simpl. lia. }
    destruct (Nat.ltb_spec 1 (length tpre + S (length tpost))) as [_|]; [|lia].
    unfold remove_index. cbn [backing len slice_of]. rewrite Hlen.
    rewrite decide_True by lia. cbn [mbind Outcome_bind].
    assert (take (length tpre) (er_Targets r) = tpre) as ->.
    { by rewrite Htargets, take_app_length. }
    assert (take (length tpre + S (length tpost) - (length tpre + 1))
              (drop (length tpre + 1) (er_Targets r)) = tpost) as ->.
    { rewrite Htargets, (cons_middle t), app_assoc, drop_app_length'
        by (rewrite length_app; simpl; lia).
      apply take_ge. lia. }
    replace (length tpre + S (length tpost) - 1) with (length tpre + length tpost) by lia.
    apply forRange_id. intros i Hi. apply elem_of_seq in Hi.
    set (tail := drop (length tpre + length tpost) (er_Targets r)).
    assert (length tail = 1) as Htail.
    { unfold tail. rewrite length_drop, Hlen. lia. }
    assert (Forall (off scheduleID) tail) as Hofftail.
    { unfold tail. rewrite Htargets, drop_app_ge by lia.
      replace (length tpre + length tpost - length tpre) with (S (length tpost - 1)) by lia.
      simpl. by apply Forall_drop. }
    destruct (lookup_lt_is_Some_2 (tpre ++ tpost ++ tail) i) as [t' Ht'].
    { rewrite !length_app. lia. }
    eapply (targetBody_off _ _ _ _ _ _ t').
    + cbn [rules]. apply list_lookup_insert_eq. by eapply lookup_lt_Some.
    + done.
    + assert (Forall (off scheduleID) (tpost ++ tail)) as Hoff.
      { apply Forall_app. by split. }
      rewrite lookup_app_r in Ht' by lia. by eapply Forall_lookup in Hoff.
Qed.

Lemma elems_removed (k m : nat) :
  take (k + S m - 1) (take k (seq 0 (k + S m))
                ++ take (k + S m - (k + 1)) (drop (k + 1) (seq 0 (k + S m)))
                ++ drop (k + S m - 1) (seq 0 (k + S m)))
  = seq 0 k ++ seq (S k) m.
Proof.
  rewrite take_seq, drop_seq, take_seq.
  replace (k `min` (k + S m)) with k by lia.
  replace ((k + S m - (k + 1)) `min` (k + S m - (k + 1))) with m by lia.
  replace (0 + (k + 1)) with (S k) by lia.
  rewrite app_assoc. apply take_app_length'. rewrite length_app, !length_seq. lia.
Qed.

(** One target of one rule is the schedule: the loops take out that
    target, or the rule when it has no other target, and nothing
    else. *)
Lemma removeScheduleLoops_single (scheduleID : string) (pre post : list EscalationRule)
    (r : EscalationRule) (tpre tpost : list EscalationTargetReference)
    (t : EscalationTargetReference) :
  Forall (free_of scheduleID) pre → Forall (free_of scheduleID) post →
  er_Targets r = tpre ++ t :: tpost →
  isScheduleConfiguredInEscalationRule scheduleID t = true →
  Forall (off scheduleID) tpre → Forall (off scheduleID) tpost →
  ∃ st,
    removeScheduleLoops scheduleID (pre ++ r :: post) = Ok st ∧
    needsToUpdate st = true ∧
    store_rules st = pre ++ without (tpre ++ tpost) r ++ post.
Proof.
  intros Hpre Hpost Htargets Hon Htpre Htpost.
  set (rs := pre ++ r :: post). set (k := length pre). set (m := length post).
  assert (length rs = k + S m) as Hlen by (unfold rs; by rewrite length_app).
  assert (rs !! k = Some r) as Hk by (by apply list_lookup_middle).
  assert (∀ p x, p ≠ k → rs !! p = Some x → free_of scheduleID x) as Hfree.
  { intros p x Hp Hx. unfold rs in Hx. destruct (decide (p < k)).
    - rewrite lookup_app_l in Hx by done. by eapply Forall_lookup in Hpre.
    - rewrite lookup_app_r in Hx by (fold k; lia).
      destruct (p - length pre) as [|q] eqn:Hq; [fold k in Hq; lia|].
      simpl in Hx. by eapply Forall_lookup in Hpost. }
  unfold removeScheduleLoops. rewrite Hlen, seq_app, forRange_app, forRange_id; cycle 1.
  { intros ri Hri. apply elem_of_seq in Hri.
    destruct (lookup_lt_is_Some_2 rs ri) as [x Hx]; [lia|].
    apply (ruleBody_clean _ _ ri _ x).
    - simpl. rewrite Hlen. apply lookup_seq_lt. lia.
    - by rewrite rules_load, list_lookup_fmap, Hx.
    - apply (Hfree ri); [lia | done]. }
  change (0 + k) with k.
  cbn [seq forRange]. unfold ruleBody at 1.
  assert (backing (epr (load_rules rs)) !! k = Some k) as ->.
  { simpl. rewrite Hlen. apply lookup_seq_lt. lia. }
  assert (rules (load_rules rs) !! k = Some (to_object r)) as Hobj.
  { by rewrite rules_load, list_lookup_fmap, Hk. }
  rewrite Hobj. cbn [to_object ro_Targets slice_of len].
  rewrite (targets_loop scheduleID k k _ r tpre tpost t) by done.
  assert (to_object <$> rs
          = (to_object <$> pre) ++ to_object r :: (to_object <$> post)) as Hobjects.
  { unfold rs. by rewrite fmap_app. }
  assert (∀ os : list EscalationRule, to_rule <$> (to_object <$> os) = os) as Hback.
  { intros os. rewrite <- list_fmap_compose. rewrite <- (list_fmap_id os) at 2.
    apply list_fmap_ext. intros i x _. apply to_rule_to_object. }
  destruct (tpre ++ tpost) as [|x rest] eqn:Hrest.
  - (* the rule goes *)
    unfold remove_index. cbn [load_rules epr backing len slice_of].
    rewrite length_seq, Hlen, decide_True by lia. cbn [mbind Outcome_bind].
    eexists. split; [|split; [|]].
    + apply forRange_id. intros ri Hri. apply elem_of_seq in Hri.
      cbn [epr backing].
      rewrite take_seq, drop_seq, take_seq, drop_seq.
      replace (k `min` (k + S m)) with k by lia.
      replace ((k + S m - (k + 1)) `min` (k + S m - (k + 1))) with m by lia.
      replace (0 + (k + 1)) with (S k) by lia.
      replace (0 + (k + S m - 1)) with (k + m) by lia.
      replace (k + S m - (k + S m - 1)) with 1 by lia.
      assert (Forall (λ p, k < p < k + S m) (seq (S k) m ++ seq (k + m) 1)) as Hptrs.
      { apply Forall_app. split; apply Forall_seq; intros; lia. }
      destruct (lookup_lt_is_Some_2 (seq (S k) m ++ seq (k + m) 1) (ri - k)) as [p Hp].
      { rewrite length_app, !length_seq. lia. }
      pose proof (proj1 (Forall_lookup _ _) Hptrs _ _ Hp) as Hrange. simpl in Hrange.
      destruct (lookup_lt_is_Some_2 rs p) as [y Hy]; [lia|].
      apply (ruleBody_clean _ _ p _ y).
      * cbn [epr backing]. rewrite lookup_app_r by (rewrite length_seq; lia).
        by rewrite length_seq.
      * cbn [rules]. by rewrite rules_load, list_lookup_fmap, Hy.
      * apply (Hfree p); [lia | done].
    + done.
    + rewrite store_of_objects. unfold elems. cbn [len backing].
      rewrite elems_removed, omap_app.
      rewrite !omap_lookup_seq by (rewrite rules_load, length_fmap; lia).
      rewrite rules_load, Hobjects, drop_0, take_app_length' by (by rewrite length_fmap).
      rewrite (cons_middle (to_object r)), app_assoc, drop_app_length'
        by (rewrite length_app, length_fmap; simpl; unfold k; lia).
      rewrite take_ge by (rewrite length_fmap; unfold m; lia).
      by rewrite !Hback.
  - (* the target goes *)
    eexists. split; [|split; [|]].
    + apply forRange_id. intros ri Hri. apply elem_of_seq in Hri.
      destruct (lookup_lt_is_Some_2 rs ri) as [y Hy]; [lia|].
      apply (ruleBody_clean _ _ ri _ y).
      * cbn [epr load_rules backing slice_of]. rewrite Hlen. apply lookup_seq_lt. lia.
      * cbn [rules]. rewrite list_lookup_insert_ne by lia.
        by rewrite rules_load, list_lookup_fmap, Hy.
      * apply (Hfree ri); [lia | done].
    + done.
    + rewrite store_of_objects. unfold elems. cbn [load_rules epr len backing slice_of].
      rewrite firstn_all.
      rewrite omap_lookup_seq by (rewrite length_insert, rules_load, length_fmap; lia).
      rewrite drop_0, take_ge by (rewrite length_insert, rules_load, length_fmap; lia).
      rewrite rules_load, Hobjects.
      replace k with (length (to_object <$> pre) + 0) at 1
        by (rewrite length_fmap; unfold k; lia).
      rewrite insert_app_r. cbn [insert list_insert].
      rewrite fmap_app, fmap_cons, !Hback. f_equal.
      assert (to_rule (ro_set_Targets
                {| backing := tpre ++ tpost ++ drop (length tpre + length tpost) (er_Targets r);
                   len := length tpre + length tpost |} (to_object r))
              = with_Targets (tpre ++ tpost) r) as ->.
      { unfold to_rule, with_Targets, ro_set_Targets, elems. cbn. f_equal.
        rewrite app_assoc. apply take_app_length'. by rewrite length_app. }
      by rewrite Hrest.
Qed.
End Removals.

(** * Further properties *)

Section MoreProperties.
Context `{GoRuntime}.

(** ** Between configuration and documents *)

Lemma expandScheduleLayers_cons (rsl : RawLayer) (rest : list RawLayer) :
  expandScheduleLayers (rsl :: rest)
  = match time_Parse (rl_rotation_virtual_start rsl) with
    | None => inl (ErrorString ("parsing time " +:+ Sprintf_q (rl_rotation_virtual_start rsl)))
    | Some rvs =>
        match expandScheduleLayers rest with
        | inl err => inl err
        | inr ls => inr (expanded rsl rvs :: ls)
        end
    end.
Proof.
  cbn [expandScheduleLayers]. unfold timeToUTC.
  by destruct (time_Parse (rl_rotation_virtual_start rsl)).
Qed.

Lemma expandScheduleLayers_bad (v : list RawLayer) (rsl : RawLayer) :
  first_bad_start v = Some rsl →
  rsl ∈ v ∧ bad_start rsl ∧
  expandScheduleLayers v
  = inl (ErrorString ("parsing time " +:+ Sprintf_q (rl_rotation_virtual_start rsl))).
Proof.
  induction v as [|x rest IH]; [done|].
  rewrite expandScheduleLayers_cons. cbn [first_bad_start]. unfold bad_start.
  destruct (time_Parse (rl_rotation_virtual_start x)) as [rvs|] eqn:Hparse.
  - intros Hbad. destruct (IH Hbad) as (Hin & Hrsl & ->). split; [by right | done].
  - intros [= <-]. split; [left | done].
Qed.

Lemma expandScheduleLayers_good (v : list RawLayer) :
  first_bad_start v = None →
  ∃ ls, expandScheduleLayers v = inr ls ∧
    Forall2 (λ rsl sl, ∃ rvs, time_Parse (rl_rotation_virtual_start rsl) = Some rvs ∧
                              sl = expanded rsl rvs) v ls.
Proof.
  induction v as [|x rest IH]; [exists []; by split|].
  rewrite expandScheduleLayers_cons. cbn [first_bad_start].
  destruct (time_Parse (rl_rotation_virtual_start x)) as [rvs|] eqn:Hparse; [|done].
  intros Hgood. destruct (IH Hgood) as (ls & -> & Hall).
  eexists. split; [done|]. constructor; eauto.
Qed.

Lemma expandScheduleLayers_inr (v : list RawLayer) (ls : list ScheduleLayer) :
  expandScheduleLayers v = inr ls →
  Forall2 (λ rsl sl, ∃ rvs, time_Parse (rl_rotation_virtual_start rsl) = Some rvs ∧
                            sl = expanded rsl rvs) v ls.
Proof.
  intros Hexp. destruct (first_bad_start v) as [bad|] eqn:Hbad.
  - apply expandScheduleLayers_bad in Hbad as (_ & _ & Hbad). congruence.
  - apply expandScheduleLayers_good in Hbad as (ls' & Hexp' & Hall). congruence.
Qed.

(** X1: [expandScheduleLayers] fails exactly when some configured
    layer has a [rotation_virtual_start] that does not parse, with the
    error of the first such layer; otherwise it returns one layer for
    each configured layer, in the same order, with the same identifier,
    name, start, users and restrictions, a nil end for an empty end,
    and the rotation start printed in UTC. *)
Theorem expandScheduleLayers_spec (v : list RawLayer) :
  match first_bad_start v with
  | Some rsl =>
      rsl ∈ v ∧
      bad_start rsl ∧
      expandScheduleLayers v
      = inl (ErrorString ("parsing time " +:+ Sprintf_q (rl_rotation_virtual_start rsl)))
  | None =>
      ∃ ls, expandScheduleLayers v = inr ls ∧
        Forall2 (λ rsl sl, ∃ rvs, time_Parse (rl_rotation_virtual_start rsl) = Some rvs ∧
                                  sl = expanded rsl rvs) v ls
  end.
Proof.
  destruct (first_bad_start v) as [rsl|] eqn:Hbad.
  - by apply expandScheduleLayers_bad.
  - by apply expandScheduleLayers_good.
Qed.

Lemma first_bad_start_None (v : list RawLayer) :
  first_bad_start v = None ↔ Forall (λ rsl, is_Some (time_Parse (rl_rotation_virtual_start rsl))) v.
Proof.
  induction v as [|rsl rest IH]; cbn [first_bad_start]; [by split|].
  rewrite Forall_cons. destruct (time_Parse (rl_rotation_virtual_start rsl)) eqn:Hp.
  - rewrite IH. split; [by split; eauto | by intros []].
  - split; [done | by intros [[? ?] _]].
Qed.

Lemma flattenRestriction_expand (rslr : RawRestriction) :
  let r := flattenRestriction (expandRestriction rslr) in
  r !! "type" = Some (RString (rr_type rslr)) ∧
  r !! "start_time_of_day" = Some (RString (rr_start_time_of_day rslr)) ∧
  r !! "duration_seconds" = Some (RInt (rr_duration_seconds rslr)) ∧
  r !! "start_day_of_week"
  = (if 0 <? rr_start_day_of_week rslr then Some (RInt (rr_start_day_of_week rslr)) else None).
Proof.
  unfold flattenRestriction, expandRestriction. cbn [r_Type r_StartTimeOfDay r_StartDayOfWeek
    r_DurationSeconds].
  destruct (0 <? rr_start_day_of_week rslr); repeat split; by simplify_map_eq.
Qed.

Lemma stringPtr_round_trip (v : string) : stringPtrToStringType (stringTypeToStringPtr v) = v.
Proof.
  unfold stringTypeToStringPtr. destruct (String.eqb_spec v ""); [by subst | done].
Qed.

Lemma reads_back_expanded (rsl : RawLayer) (rvs : Z) :
  reads_back rsl (flat (expanded rsl rvs)).
Proof.
  unfold reads_back, flat, endStr, flattenLayer, expanded.
  cbn [sl_ID sl_Name sl_Start sl_End sl_RotationVirtualStart sl_RotationTurnLengthSeconds
       sl_RenderedCoveragePercentage sl_Users sl_Restrictions].
  rewrite stringPtr_round_trip.
  repeat (split; [by simplify_map_eq|]).
  split.
  { rewrite lookup_insert_ne by done. rewrite lookup_insert_eq. f_equal. f_equal.
    rewrite <- list_fmap_compose. by rewrite <- (list_fmap_id (rl_users rsl)) at 2. }
  eexists. split; [by rewrite lookup_insert_eq|].
  rewrite <- list_fmap_compose. apply Forall2_fmap_r, Forall_Forall2_diag, Forall_forall.
  intros rslr _. apply flattenRestriction_expand.
Qed.

Lemma visible_all (now : nat -> Z) (ls : list ScheduleLayer) :
  Forall (λ sl, ended sl = false
                ∨ ∃ e, time_Parse (endStr sl) = Some e ∧ ∀ j, now j ≤ e) ls →
  ∀ k, visible now k ls = ls.
Proof.
  induction 1 as [|sl rest Hsl _ IH]; intros k; cbn [visible]; [done|].
  destruct (ended sl) eqn:He; [|by rewrite IH].
  destruct Hsl as [?|(e & -> & Hnow)]; [congruence|].
  specialize (Hnow k). destruct (Z.ltb_spec e (now k)); [lia | by rewrite IH].
Qed.

(** X2: what is configured is read back. When the layers that
    [expandScheduleLayers] makes of a configuration come back from the
    service while none of them has ended, [flattenScheduleLayers]
    returns one map for each configured layer, in the reverse order,
    with the configured identifier, name, start, end, turn length,
    users and restrictions; of a restriction only a
    [start_day_of_week] that is not positive is lost. *)
Theorem configuration_is_read_back (v : list RawLayer) (ls : list ScheduleLayer)
    (w : World) (s : State) :
  expandScheduleLayers v = inr ls →
  Forall (not_ended w) v →
  ∃ view s',
    flattenScheduleLayers ls w s = (Ok (inr view), s') ∧
    trace s' = trace s ∧ data s' = data s ∧
    Forall2 reads_back (reverse v) view.
Proof.
  intros Hexp Hends. pose proof (expandScheduleLayers_inr v ls Hexp) as Hall.
  assert (Forall (λ sl, ended sl = false
                        ∨ ∃ e, time_Parse (endStr sl) = Some e ∧ ∀ j, clock w j ≤ e) ls)
    as Hvis.
  { clear Hexp. induction Hall as [|rsl sl v ls (rvs & Hp & ->) _ IH]; [done|].
    apply Forall_cons in Hends as [Hend Hends]. constructor; [|by apply IH].
    unfold ended, endStr, expanded. cbn [sl_End]. rewrite stringPtr_round_trip.
    destruct Hend as [->|Hend]; [by left | by right]. }
  assert (ends_parse ls) as Hparse.
  { intros sl Hin He. eapply Forall_forall in Hvis; [|done].
    destruct Hvis as [?|(e & -> & _)]; [congruence | eauto]. }
  exists (reverse (flat <$> ls)), (advance (readings ls) s).
  rewrite flattenScheduleLayers_run by done. rewrite visible_all by done.
  repeat split.
  rewrite <- fmap_reverse. apply Forall2_fmap_r.
  apply Forall2_reverse. eapply Forall2_impl; [done|].
  intros rsl sl (rvs & _ & ->). apply reads_back_expanded.
Qed.

(** X3: the teams of the configuration become team references, and
    the identifiers that are read back from them are the configured
    ones, in the same order. *)
Theorem teams_round_trip (v : list string) :
  flattenShedTeams (expandSchedTeams v) = v ∧
  Forall (λ team, t_Type team = "team_reference") (expandSchedTeams v).
Proof.
  unfold flattenShedTeams, expandSchedTeams. split.
  - rewrite <- list_fmap_compose. by rewrite <- (list_fmap_id v) at 2.
  - apply Forall_fmap, Forall_forall. by intros.
Qed.

(** ** Running the operations *)

Lemma run_Client {B : Type} (k : option GoError -> M B) (w : World) (s : State) :
  (Client ≫= k) w s = k (Config_Client w) w s.
Proof. reflexivity. Qed.

Lemma run_getData {B : Type} (k : ResourceData -> M B) (w : World) (s : State) :
  (getData ≫= k) w s = k (data s) w s.
Proof. reflexivity. Qed.

Lemma run_call {A B : Type} (r : Request) (answer : World -> list Event -> A) (k : A -> M B)
    (w : World) (s : State) :
  (call r answer ≫= k) w s = k (answer w (trace s)) w (emit (EvCall (deadline s) r) s).
Proof. reflexivity. Qed.

Lemma run_Sleep {B : Type} (d : Z) (k : unit -> M B) (w : World) (s : State) :
  (time_Sleep d ≫= k) w s = k tt w (emit (EvSleep d) s).
Proof. reflexivity. Qed.

Lemma run_Set {B : Type} (key : string) (v : SetValue) (k : unit -> M B) (w : World) (s : State) :
  (d_Set key v ≫= k) w s = k tt w (set_data (ResourceData_Set key v (data s)) s).
Proof. reflexivity. Qed.

Lemma run_SetId {B : Type} (id : string) (k : unit -> M B) (w : World) (s : State) :
  (d_SetId id ≫= k) w s = k tt w (set_data (ResourceData_SetId id (data s)) s).
Proof. reflexivity. Qed.

Lemma run_Retry {C B : Type} (timeout : Z) (f : C -> M (C * option RetryError)) (c : C)
    (k : C * option GoError -> M B) (w : World) (s : State) :
  (Retry timeout f c ≫= k) w s
  = match retryLoop (attempts w (trace s) timeout) f c w (set_deadline (Some timeout) s) with
    | (Ok a, s') => k a w (set_deadline (deadline s) s')
    | (Panic msg, s') => (Panic msg, set_deadline (deadline s) s')
    end.
Proof.
  rewrite run_bind. unfold Retry. by destruct (retryLoop _ _ _ _ _) as [[a|msg] s'].
Qed.

Lemma after_nil (s : State) : after [] s = s.
Proof. destruct s. unfold after. simpl. by rewrite app_nil_r. Qed.

Lemma emit_after (ev : Event) (evs : list Event) (s : State) :
  emit ev (after evs s) = after (evs ++ [ev]) s.
Proof. unfold emit, after. simpl. by rewrite app_assoc. Qed.



Lemma events_of_after {A : Type} (m : M A) (w : World) (s : State) (a : Outcome A)
    (evs : list Event) (s' : State) :
  m w s = (a, s') → trace s' = trace s ++ evs → events_of m w s = evs.
Proof. intros Hm Ht. unfold events_of. rewrite Hm. simpl. by rewrite Ht, drop_app_length. Qed.

(** ** What a computation does to [d] *)

Section Keeps.
Context (R : relation ResourceData) `{!PreOrder R}.

Lemma keeps_ret {A : Type} (a : A) : keeps R (mret a).
Proof. by intros w s. Qed.

Lemma keeps_bind {A B : Type} (m : M A) (k : A -> M B) :
  keeps R m → (∀ a, keeps R (k a)) → keeps R (m ≫= k).
Proof.
  intros Hm Hk w s. rewrite run_bind. specialize (Hm w s).
  destruct (m w s) as [[a|msg] s1]; [|done]. by etrans; [|apply Hk].
Qed.

Lemma keeps_same {A : Type} (m : M A) : (∀ w s, data (m w s).2 = data s) → keeps R m.
Proof. intros Hm w s. by rewrite Hm. Qed.

Lemma keeps_call {A : Type} (r : Request) (answer : World -> list Event -> A) :
  keeps R (call r answer).
Proof. by apply keeps_same. Qed.
Lemma keeps_Sleep (d : Z) : keeps R (time_Sleep d).
Proof. by apply keeps_same. Qed.
Lemma keeps_Now : keeps R time_Now.
Proof. by apply keeps_same. Qed.
Lemma keeps_getData : keeps R getData.
Proof. by apply keeps_same. Qed.
Lemma keeps_Client : keeps R Client.
Proof. by apply keeps_same. Qed.
Lemma keeps_lift {A : Type} (o : Outcome A) : keeps R (lift o).
Proof. by apply keeps_same. Qed.
Lemma keeps_panic {A : Type} (msg : string) : keeps R (panic (A := A) msg).
Proof. by apply keeps_same. Qed.

Lemma keeps_retryLoop {C : Type} (n : nat) (f : C -> M (C * option RetryError)) :
  (∀ c, keeps R (f c)) → ∀ c, keeps R (retryLoop n f c).
Proof.
  intros Hf. induction n as [|n IH]; intros c; simpl.
  - apply keeps_bind; [done|]. intros [c' [[e|e]|]]; apply keeps_ret.
  - apply keeps_bind; [done|]. intros [c' [[e|e]|]]; simpl; [apply IH | apply keeps_ret..].
Qed.

Lemma keeps_Retry {C : Type} (timeout : Z) (f : C -> M (C * option RetryError)) (c : C) :
  (∀ c, keeps R (f c)) → keeps R (Retry timeout f c).
Proof.
  intros Hf w s. unfold Retry.
  apply (keeps_retryLoop (attempts w (trace s) timeout) f Hf c w (set_deadline (Some timeout) s)).
Qed.

Lemma keeps_flattenLoop (v : list ScheduleLayer) : ∀ acc, keeps R (flattenLoop v acc).
Proof.
  induction v as [|sl rest IH]; intros acc; simpl; [apply keeps_ret|].
  destruct (negb _); [|apply IH].
  destruct (timeToUTC _); [apply keeps_ret|].
  apply keeps_bind; [apply keeps_Now|]. intros now. destruct (_ <? _); apply IH.
Qed.

Lemma keeps_flattenScheduleLayers (v : list ScheduleLayer) : keeps R (flattenScheduleLayers v).
Proof.
  unfold flattenScheduleLayers. apply keeps_bind; [apply keeps_flattenLoop|].
  intros [err|ls]; apply keeps_ret.
Qed.

Lemma keeps_endRemovedLayers (osl nsl : list ScheduleLayer) :
  ∀ layers, keeps R (endRemovedLayers osl nsl layers).
Proof.
  induction osl as [|o rest IH]; intros layers; simpl; [apply keeps_ret|].
  destruct (layerFound o nsl); [apply IH|].
  apply keeps_bind; [apply keeps_Now|]. intros now.
  destruct (timeToUTC _); [apply keeps_ret | apply IH].
Qed.
End Keeps.

Ltac keeps_step :=
  match goal with
  | |- keeps _ (mbind _ _) => apply (keeps_bind _); [|intros ?]
  | |- keeps _ (mret _) => apply (keeps_ret _)
  | |- keeps _ (time_Sleep _) => apply (keeps_Sleep _)
  | |- keeps _ time_Now => apply (keeps_Now _)
  | |- keeps _ getData => apply (keeps_getData _)
  | |- keeps _ Client => apply (keeps_Client _)
  | |- keeps _ (lift _) => apply (keeps_lift _)
  | |- keeps _ (panic _) => apply (keeps_panic _)
  | |- keeps _ (call _ _) => apply (keeps_call _)
  | |- keeps _ (Retry _ _ _) => apply (keeps_Retry _); intros ?
  | |- keeps _ (flattenScheduleLayers _) => apply (keeps_flattenScheduleLayers _)
  | |- keeps _ (endRemovedLayers _ _ _) => apply (keeps_endRemovedLayers _)
  | |- keeps _ (match ?x with _ => _ end) => destruct x
  | |- keeps _ (if ?x then _ else _) => destruct x
  end.
Ltac keeps_all := repeat keeps_step.

#[local] Instance same_Id_preorder : PreOrder same_Id.
Proof. split; [done|]. unfold same_Id. intros d1 d2 d3 H12 H23. by rewrite H23. Qed.

Lemma keeps_Set_same_Id (key : string) (v : SetValue) : keeps same_Id (d_Set key v).
Proof. by intros w s. Qed.

Lemma steady_removeScheduleFromEP (scheduleID : string) (ep : EscalationPolicy) :
  steady (removeScheduleFromEP scheduleID ep).
Proof.
  unfold steady, removeScheduleFromEP, writeBackAttempt, EscalationPolicies_Update. keeps_all.
Qed.

Lemma steady_dissociate (scheduleID : string) (eps : list string) :
  steady (dissociateScheduleFromEPs scheduleID eps).
Proof.
  unfold steady. induction eps as [|epID rest IH]; cbn [dissociateScheduleFromEPs]; [keeps_all|].
  apply (keeps_bind _); [|].
  { unfold policyAttempt, EscalationPolicies_Get. keeps_all. }
  intros [found [e|]]; cbn [fst snd]; [keeps_all|]. destruct found as [ep|]; [|done].
  apply (keeps_bind _); [apply steady_removeScheduleFromEP|]. intros [err|]; [keeps_all | done].
Qed.

Lemma steady_fetch (id : string) (timeout : Z) : steady (Retry timeout (fetchAttempt id) None).
Proof. unfold steady, fetchAttempt, Schedules_Get. keeps_all. Qed.

Lemma steady_extractEPs (id : string) : steady (extractEPsAssociatedToSchedule id).
Proof.
  unfold steady, extractEPsAssociatedToSchedule. apply (keeps_bind _); [apply steady_fetch|].
  intros ?. keeps_all.
Qed.

Lemma steady_listIncidents (id : string) : steady (listIncidentsOpenedRelatedToSchedule id).
Proof.
  unfold steady, listIncidentsOpenedRelatedToSchedule.
  apply (keeps_bind _); [apply steady_fetch|]. intros ?.
  unfold listAttempt, Incidents_ListAll. keeps_all.
Qed.

Lemma steady_deleteAttempt (scheduleId : string) (eps : list string) (c : unit) :
  steady (deleteAttempt scheduleId eps c).
Proof.
  unfold steady, deleteAttempt, Schedules_Delete. apply (keeps_bind _); [apply (keeps_call _)|].
  intros [err|]; [|keeps_all]. destruct (negb _); [keeps_all|]. destruct (notTheConflict _); [keeps_all|].
  apply (keeps_bind _); [apply steady_dissociate|]. intros ?. keeps_all.
Qed.

Lemma keeps_Read : keeps same_Id resourcePagerDutyScheduleRead.
Proof.
  unfold resourcePagerDutyScheduleRead. apply (keeps_bind _); [apply (keeps_Client _)|].
  intros [err|]; [apply (keeps_ret _)|].
  apply (keeps_bind _); [|intros [c [e|]]; cbn [snd]].
  - apply (keeps_Retry _). intros c. unfold readAttempt, Schedules_Get.
    apply (keeps_bind _); [apply (keeps_getData _)|]. intros d.
    apply (keeps_bind _); [apply (keeps_call _)|]. intros [err|[schedule|]].
    + apply (keeps_bind _); [apply (keeps_Sleep _)|]. intros _. apply (keeps_ret _).
    + do 3 (apply (keeps_bind _); [apply keeps_Set_same_Id|]; intros _).
      apply (keeps_bind _); [apply (keeps_flattenScheduleLayers _)|].
      intros [err|layers]; [apply (keeps_ret _)|].
      do 2 (apply (keeps_bind _); [apply keeps_Set_same_Id|]; intros _).
      apply (keeps_bind _); [apply (keeps_lift _)|]. intros fs.
      apply (keeps_bind _); [apply keeps_Set_same_Id|]. intros _. apply (keeps_ret _).
    + apply (keeps_ret _).
  - apply (keeps_bind _); [apply (keeps_Sleep _)|]. intros _. apply (keeps_ret _).
  - apply (keeps_ret _).
Qed.

(** ** How a run begins and how a retry ends *)

Lemma begins_bind {A B : Type} (Q : option Z -> Event -> Prop) (ev : Event) (m : M A)
    (k : A -> M B) (w : World) (s : State) :
  begins ev m w s → (∀ a, emits Q (k a)) → begins ev (m ≫= k) w s.
Proof.
  intros [rest Hm] Hk. unfold begins. rewrite run_bind.
  destruct (m w s) as [[a|msg] s1]; simpl in *; [|by exists rest].
  destruct (Hk a w s1) as (evs & -> & _). rewrite Hm, <- app_assoc. by eexists.
Qed.

Lemma begins_call {A B : Type} (Q : option Z -> Event -> Prop) (r : Request)
    (answer : World -> list Event -> A) (k : A -> M B) (w : World) (s : State) :
  (∀ a, emits Q (k a)) → begins (EvCall (deadline s) r) (call r answer ≫= k) w s.
Proof. intros Hk. apply (begins_bind Q); [|done]. by exists []. Qed.

Lemma begins_retryLoop {C : Type} (Q : option Z -> Event -> Prop) (ev : Event) (n : nat)
    (f : C -> M (C * option RetryError)) (c : C) (w : World) (s : State) :
  (∀ c, emits Q (f c)) → begins ev (f c) w s → begins ev (retryLoop n f c) w s.
Proof.
  intros Hf Hc. destruct n as [|n]; cbn [retryLoop]; (apply (begins_bind Q); [done|]).
  - intros [c' [[e|e]|]]; apply emits_ret.
  - intros [c' [[e|e]|]]; cbn [fst snd]; [by apply emits_retryLoop | apply emits_ret..].
Qed.

Lemma begins_Retry {C : Type} (Q : option Z -> Event -> Prop) (ev : Event) (timeout : Z)
    (f : C -> M (C * option RetryError)) (c : C) (w : World) (s : State) :
  (∀ c, emits Q (f c)) → begins ev (f c) w (set_deadline (Some timeout) s) →
  begins ev (Retry timeout f c) w s.
Proof.
  intros Hf Hc. unfold begins, Retry. cbn [snd set_deadline trace].
  by apply (begins_retryLoop Q ev (attempts w (trace s) timeout)) in Hc.
Qed.

Lemma Read_begins (w : World) (s : State) :
  Config_Client w = None →
  begins (EvCall (Some (30 * time_Second)) (SchedulesGet (d_Id (data s))))
    resourcePagerDutyScheduleRead w s.
Proof.
  intros Hc. unfold resourcePagerDutyScheduleRead.
  unfold begins. rewrite run_Client, Hc. eapply (begins_bind (λ _ _, True)).
  - apply (begins_Retry (under (30 * time_Second) read_event)); [apply emits_readAttempt|].
    unfold readAttempt. unfold begins. rewrite run_getData. unfold Schedules_Get.
    apply (begins_call (λ _ _, True)). intros [err|[schedule|]].
    + apply emits_bind; [by apply emits_Sleep | intros ?; apply emits_ret].
    + do 3 (apply emits_bind; [apply emits_Set|]; intros _).
      apply emits_bind; [apply emits_flattenScheduleLayers|].
      intros [err|layers]; [apply emits_ret|].
      do 2 (apply emits_bind; [apply emits_Set|]; intros _).
      apply emits_bind; [apply emits_lift|]. intros fs.
      apply emits_bind; [apply emits_Set | intros ?; apply emits_ret].
    + apply emits_ret.
  - intros [c [e|]]; cbn [snd]; [|apply emits_ret].
    apply emits_bind; [by apply emits_Sleep | intros ?; apply emits_ret].
Qed.

(** A [resource.Retry] that returns nil ended with a run of the
    closure that returned nil; [Inv] is any property of the state that
    the closure maintains. *)
Lemma retryLoop_nil {C : Type} (Inv : State -> Prop) (w : World) (n : nat)
    (f : C -> M (C * option RetryError)) :
  (∀ c s, Inv s → Inv (f c w s).2) →
  ∀ (c c' : C) (s s' : State),
    Inv s →
    retryLoop n f c w s = (Ok (c', None), s') →
    ∃ c0 s0, Inv s0 ∧ f c0 w s0 = (Ok (c', None), s').
Proof.
  intros Hinv. induction n as [|n IH]; intros c c' s s' Hs; cbn [retryLoop]; rewrite run_bind;
    pose proof (Hinv c s Hs) as Hs1;
    destruct (f c w s) as [[[c1 [[e1|e1]|]]|msg] s1] eqn:Hf; cbn [fst snd] in *;
    rewrite ?run_ret; try done.
  - intros [= <- <-]. eauto.
  - by apply IH.
  - intros [= <- <-]. eauto.
Qed.

(** ** Create *)

(** X4: a configuration whose [rotation_virtual_start] does not parse
    is turned down before anything is sent: the create and the update
    return the error of the first such layer, make no remote call and
    leave [d] as it is. *)
Theorem invalid_configuration_is_rejected_locally (w : World) (s : State) (rsl : RawLayer) :
  Config_Client w = None →
  first_bad_start (d_layer (data s)) = Some rsl →
  let err := ErrorString ("parsing time " +:+ Sprintf_q (rl_rotation_virtual_start rsl)) in
  resourcePagerDutyScheduleCreate w s = (Ok (Some err), s) ∧
  resourcePagerDutyScheduleUpdate w s = (Ok (Some err), s).
Proof.
  intros Hc Hbad err. apply expandScheduleLayers_bad in Hbad as (_ & _ & Hexp).
  assert (buildScheduleStruct (data s) = inl err) as Hbuild.
  { unfold buildScheduleStruct. by rewrite Hexp. }
  split.
  - unfold resourcePagerDutyScheduleCreate. by rewrite run_Client, Hc, run_getData, Hbuild.
  - unfold resourcePagerDutyScheduleUpdate. by rewrite run_Client, Hc, run_getData, Hbuild.
Qed.

(** X5: the create sends the document built from the configuration
    once, outside any retry. When the service refuses it, the error is
    returned and [d] has no new identifier; when the service answers
    with no schedule, the create dereferences nil; otherwise the
    identifier of [d] is the one the service assigned, whatever the
    read that follows does, and that read begins by fetching this
    identifier. *)
Theorem create_outcome (w : World) (s : State) (doc : Schedule) :
  Config_Client w = None →
  buildScheduleStruct (data s) = inr doc →
  let request := EvCall (deadline s) (SchedulesCreate doc (d_overflow (data s))) in
  match remote_Schedules_Create w (trace s) doc (d_overflow (data s)) with
  | inl err => resourcePagerDutyScheduleCreate w s = (Ok (Some err), emit request s)
  | inr None => resourcePagerDutyScheduleCreate w s = (Panic nil_dereference, emit request s)
  | inr (Some created) =>
      d_Id (data (resourcePagerDutyScheduleCreate w s).2) = s_ID created ∧
      ∃ rest, events_of resourcePagerDutyScheduleCreate w s
              = request :: EvCall (Some (30 * time_Second)) (SchedulesGet (s_ID created)) :: rest
  end.
Proof.
  intros Hc Hbuild request. unfold events_of, resourcePagerDutyScheduleCreate.
  rewrite run_Client, Hc, run_getData, Hbuild. unfold Schedules_Create. rewrite run_call.
  destruct (remote_Schedules_Create w (trace s) doc (d_overflow (data s)))
    as [err|[created|]]; [done| |done].
  rewrite run_SetId. cbn beta. fold request.
  set (s1 := set_data (ResourceData_SetId (s_ID created) (data (emit request s)))
              (emit request s)).
  split; [apply (keeps_Read w s1)|].
  destruct (Read_begins w s1 Hc) as [rest ->]. exists rest.
  cbn [s1 set_data emit trace data ResourceData_SetId d_Id].
  by rewrite <- app_assoc, drop_app_length.
Qed.

(** ** Read *)

Lemma restore_deadline (evs : list Event) (timeout : Z) (s : State) :
  set_deadline (deadline s) (after evs (set_deadline (Some timeout) s)) = after evs s.
Proof. by destruct s. Qed.

(** X6: when the service answers the fetch with no schedule and no
    error, the read returns nil after that one fetch and stores
    nothing. *)
Theorem read_of_an_absent_schedule (w : World) (s : State) :
  Config_Client w = None →
  remote_Schedules_Get w (trace s) (d_Id (data s)) = inr None →
  resourcePagerDutyScheduleRead w s
  = (Ok None, emit (EvCall (Some (30 * time_Second)) (SchedulesGet (d_Id (data s)))) s).
Proof.
  intros Hc Hget. unfold resourcePagerDutyScheduleRead. rewrite run_Client, Hc, run_Retry.
  assert (retryLoop (attempts w (trace s) (30 * time_Second)) readAttempt tt w
            (set_deadline (Some (30 * time_Second)) s)
          = (Ok (tt, None),
             after [EvCall (Some (30 * time_Second)) (SchedulesGet (d_Id (data s)))]
               (set_deadline (Some (30 * time_Second)) s))) as ->.
  { destruct (attempts _ _ _); cbn [retryLoop]; rewrite run_bind; unfold readAttempt;
      rewrite run_getData; unfold Schedules_Get; rewrite run_call;
      cbn [set_deadline trace data]; by rewrite Hget. }
  cbn [snd]. by rewrite run_ret, restore_deadline.
Qed.

(** X7: when the service answers the fetch with a schedule whose
    layers have ends that parse and that has a final schedule, the
    read returns nil after that one fetch, and has stored the name, the
    time zone, the description and the teams of the schedule, the
    visible layers in reverse order, and the name and the rendered
    coverage of the final schedule. *)
Theorem read_stores_the_schedule (w : World) (s : State) (schedule : Schedule)
    (fs : SubSchedule) :
  Config_Client w = None →
  remote_Schedules_Get w (trace s) (d_Id (data s)) = inr (Some schedule) →
  ends_parse (s_ScheduleLayers schedule) →
  s_FinalSchedule schedule = Some fs →
  ∃ s',
    resourcePagerDutyScheduleRead w s = (Ok None, s') ∧
    trace s' = trace s ++ [EvCall (Some (30 * time_Second)) (SchedulesGet (d_Id (data s)))] ∧
    let stored := d_stored (data s') in
    stored !! "name" = Some (SetString (s_Name schedule)) ∧
    stored !! "time_zone" = Some (SetString (s_TimeZone schedule)) ∧
    stored !! "description" = Some (SetString (s_Description schedule)) ∧
    stored !! "layer"
    = Some (SetLayers (reverse (flat <$> visible (clock w) (tick s) (s_ScheduleLayers schedule)))) ∧
    stored !! "teams" = Some (SetStrings (t_ID <$> s_Teams schedule)) ∧
    ∃ elem, stored !! "final_schedule" = Some (SetFinalSchedule [elem]) ∧
      elem !! "name" = Some (ss_Name fs) ∧
      elem !! "rendered_coverage_percentage"
      = Some (renderRoundedPercentage (ss_RenderedCoveragePercentage fs)).
Proof.
  intros Hc Hget Hparse Hfs. unfold resourcePagerDutyScheduleRead.
  rewrite run_Client, Hc, run_Retry.
  assert (∀ n s0, trace s0 = trace s → data s0 = data s → tick s0 = tick s →
    ∃ s1, retryLoop n readAttempt tt w s0 = (Ok (tt, None), s1) ∧
      trace s1 = trace s ++ [EvCall (deadline s0) (SchedulesGet (d_Id (data s)))] ∧
      deadline s1 = deadline s0 ∧
      let stored := d_stored (data s1) in
      stored !! "name" = Some (SetString (s_Name schedule)) ∧
      stored !! "time_zone" = Some (SetString (s_TimeZone schedule)) ∧
      stored !! "description" = Some (SetString (s_Description schedule)) ∧
      stored !! "layer"
      = Some (SetLayers (reverse (flat <$> visible (clock w) (tick s)
                                            (s_ScheduleLayers schedule)))) ∧
      stored !! "teams" = Some (SetStrings (t_ID <$> s_Teams schedule)) ∧
      ∃ elem, stored !! "final_schedule" = Some (SetFinalSchedule [elem]) ∧
        elem !! "name" = Some (ss_Name fs) ∧
        elem !! "rendered_coverage_percentage"
        = Some (renderRoundedPercentage (ss_RenderedCoveragePercentage fs))) as Hloop.
  { intros n s0 Ht Hd Hk.
    assert (∃ s1, readAttempt tt w s0 = (Ok (tt, None), s1) ∧
      trace s1 = trace s ++ [EvCall (deadline s0) (SchedulesGet (d_Id (data s)))] ∧
      deadline s1 = deadline s0 ∧
      let stored := d_stored (data s1) in
      stored !! "name" = Some (SetString (s_Name schedule)) ∧
      stored !! "time_zone" = Some (SetString (s_TimeZone schedule)) ∧
      stored !! "description" = Some (SetString (s_Description schedule)) ∧
      stored !! "layer"
      = Some (SetLayers (reverse (flat <$> visible (clock w) (tick s)
                                            (s_ScheduleLayers schedule)))) ∧
      stored !! "teams" = Some (SetStrings (t_ID <$> s_Teams schedule)) ∧
      ∃ elem, stored !! "final_schedule" = Some (SetFinalSchedule [elem]) ∧
        elem !! "name" = Some (ss_Name fs) ∧
        elem !! "rendered_coverage_percentage"
        = Some (renderRoundedPercentage (ss_RenderedCoveragePercentage fs)))
      as (s1 & Hrun & Hrest).
    { unfold readAttempt. rewrite run_getData. unfold Schedules_Get. rewrite run_call.
      rewrite Ht, Hd, Hget. cbn iota beta. rewrite !run_Set, run_bind.
      rewrite flattenScheduleLayers_run by done. cbn iota beta.
      rewrite !run_Set, run_bind, Hfs. unfold lift at 1. cbn [flattenScheFinalSchedule].
      rewrite run_Set, run_ret. eexists. split; [done|].
      cbn [trace deadline data set_data advance emit tick ResourceData_Set d_stored].
      rewrite Ht, Hk. split; [done|]. split; [done|].
      unfold flattenShedTeams.
      repeat (split; [by simplify_map_eq|]).
      eexists. split; [by simplify_map_eq|]. split; by simplify_map_eq. }
    exists s1. split; [|done].
    destruct n; cbn [retryLoop]; rewrite run_bind, Hrun; done. }
  destruct (Hloop (attempts w (trace s) (30 * time_Second))
              (set_deadline (Some (30 * time_Second)) s) eq_refl eq_refl eq_refl)
    as (s1 & -> & Ht & Hdl & Hstored).
  cbn [snd]. rewrite run_ret. eexists. split; [done|]. by split.
Qed.

Lemma failed_fetches_S (timeout : Z) (id : string) (n : nat) :
  failed_fetches timeout id (S n)
  = EvCall (Some timeout) (SchedulesGet id) :: EvSleep (2 * time_Second)
      :: failed_fetches timeout id n.
Proof. reflexivity. Qed.

Lemma readAttempts_fail (w : World) (id : string) (timeout : Z) :
  (∀ h, ∃ err, remote_Schedules_Get w h id = inl err) →
  ∀ (n : nat) (s : State),
    d_Id (data s) = id → deadline s = Some timeout →
    ∃ err,
      retryLoop n readAttempt tt w s
      = (Ok (tt, Some err), after (failed_fetches timeout id (S n)) s) ∧
      remote_Schedules_Get w (trace s ++ failed_fetches timeout id n) id = inl err.
Proof.
  intros Hfail. induction n as [|n IH]; intros s Hid Hdl;
    destruct (Hfail (trace s)) as [err Herr];
    cbn [retryLoop]; rewrite run_bind; unfold readAttempt at 1;
    rewrite run_getData; unfold Schedules_Get; rewrite run_call, Hid, Herr, Hdl;
    cbn iota beta; rewrite run_Sleep, run_ret; cbn [snd fst].
  - rewrite run_ret. exists err. split; [|by rewrite app_nil_r].
    f_equal. unfold emit, after. simpl. by rewrite <- app_assoc.
  - destruct (IH (emit (EvSleep (2 * time_Second))
                    (emit (EvCall (Some timeout) (SchedulesGet id)) s)) Hid Hdl)
      as (err' & -> & Hlast).
    exists err'. split.
    + f_equal. rewrite (failed_fetches_S _ _ (S n)). unfold emit, after. simpl.
      by rewrite <- !app_assoc.
    + rewrite failed_fetches_S. simpl in Hlast. by rewrite <- !app_assoc in Hlast.
Qed.

(** X8: when the service fails every fetch, the read fetches once and
    then once more for every attempt the 30 seconds leave room for,
    sleeps 2 seconds after each failure and once more at the end, and
    returns the error of the last fetch; [d] is as it was. *)
Theorem read_gives_up_at_the_deadline (w : World) (s : State) :
  Config_Client w = None →
  (∀ h, ∃ err, remote_Schedules_Get w h (d_Id (data s)) = inl err) →
  let n := attempts w (trace s) (30 * time_Second) in
  let fetches := failed_fetches (30 * time_Second) (d_Id (data s)) in
  ∃ err,
    resourcePagerDutyScheduleRead w s
    = (Ok (Some err), after (fetches (S n) ++ [EvSleep (2 * time_Second)]) s) ∧
    remote_Schedules_Get w (trace s ++ fetches n) (d_Id (data s)) = inl err.
Proof.
  intros Hc Hfail n fetches. unfold resourcePagerDutyScheduleRead.
  rewrite run_Client, Hc, run_Retry.
  destruct (readAttempts_fail w (d_Id (data s)) (30 * time_Second) Hfail n
              (set_deadline (Some (30 * time_Second)) s) eq_refl eq_refl)
    as (err & Hloop & Hlast).
  fold n. rewrite Hloop. cbn [snd]. rewrite run_Sleep, run_ret, restore_deadline.
  exists err. split; [|done]. by rewrite emit_after.
Qed.

Lemma advance_Now (k : nat) (s : State) :
  advance k {| tick := S (tick s); trace := trace s; deadline := deadline s; data := data s |}
  = advance (S k) s.
Proof. unfold advance. simpl. f_equal. lia. Qed.

Lemma flattenLoop_error (w : World) (v : list ScheduleLayer) :
  Exists (λ sl, ended sl = true ∧ time_Parse (endStr sl) = None) v →
  ∀ acc s, ∃ sl k,
    flattenLoop v acc w s = (Ok (inl (bad_end_error sl)), advance k s) ∧
    sl ∈ v ∧ ended sl = true ∧ time_Parse (endStr sl) = None.
Proof.
  induction 1 as [sl rest [He Hparse]|sl rest _ IH]; intros acc s;
    cbn [flattenLoop]; fold (endStr sl); fold (ended sl).
  - rewrite He. unfold timeToUTC. rewrite Hparse, run_ret. exists sl, 0%nat.
    rewrite advance_0. repeat split; [left | done..].
  - destruct (ended sl) eqn:He.
    + unfold timeToUTC. destruct (time_Parse (endStr sl)) as [e|] eqn:Hparse.
      * rewrite run_bind. unfold time_Now at 1. cbn iota beta.
        destruct (e <? _);
          match goal with |- context [flattenLoop rest ?a w ?s1] =>
            destruct (IH a s1) as (bad & k & -> & Hin & Hbad) end;
          exists bad, (S k); rewrite advance_Now; (split; [done|]); (split; [by right | done]).
      * rewrite run_ret. exists sl, 0%nat. rewrite advance_0. repeat split; [left | done..].
    + destruct (IH (acc ++ [flattenLayer sl (endStr sl)]) s) as (bad & k & -> & Hin & Hbad).
      exists bad, k. split; [done|]. split; [by right | done].
Qed.

(** X9: when the service answers the fetch with a schedule one of
    whose layers has an end that does not parse, the read is not tried
    again: after that one fetch it sleeps 2 seconds and returns the
    error of [timeToUTC] for such a layer. By then it has stored the
    name, the time zone and the description, and it has not stored the
    layers. *)
Theorem read_bad_end_is_not_retried (w : World) (s : State) (schedule : Schedule) :
  Config_Client w = None →
  remote_Schedules_Get w (trace s) (d_Id (data s)) = inr (Some schedule) →
  Exists (λ sl, ended sl = true ∧ time_Parse (endStr sl) = None) (s_ScheduleLayers schedule) →
  ∃ sl s',
    resourcePagerDutyScheduleRead w s = (Ok (Some (bad_end_error sl)), s') ∧
    sl ∈ s_ScheduleLayers schedule ∧ ended sl = true ∧ time_Parse (endStr sl) = None ∧
    trace s' = trace s ++ [EvCall (Some (30 * time_Second)) (SchedulesGet (d_Id (data s)));
                           EvSleep (2 * time_Second)] ∧
    d_stored (data s') !! "name" = Some (SetString (s_Name schedule)) ∧
    d_stored (data s') !! "time_zone" = Some (SetString (s_TimeZone schedule)) ∧
    d_stored (data s') !! "description" = Some (SetString (s_Description schedule)) ∧
    d_stored (data s') !! "layer" = d_stored (data s) !! "layer".
Proof.
  intros Hc Hget Hbad. unfold resourcePagerDutyScheduleRead.
  rewrite run_Client, Hc, run_Retry.
  set (s0 := set_deadline (Some (30 * time_Second)) s).
  assert (∃ sl s1,
    readAttempt tt w s0 = (Ok (tt, Some (NonRetryableError (bad_end_error sl))), s1) ∧
    sl ∈ s_ScheduleLayers schedule ∧ ended sl = true ∧ time_Parse (endStr sl) = None ∧
    trace s1 = trace s ++ [EvCall (Some (30 * time_Second)) (SchedulesGet (d_Id (data s)))] ∧
    d_stored (data s1) !! "name" = Some (SetString (s_Name schedule)) ∧
    d_stored (data s1) !! "time_zone" = Some (SetString (s_TimeZone schedule)) ∧
    d_stored (data s1) !! "description" = Some (SetString (s_Description schedule)) ∧
    d_stored (data s1) !! "layer" = d_stored (data s) !! "layer")
    as (sl & s1 & Hrun & Hin & He & Hparse & Ht & Hstored).
  { unfold readAttempt. rewrite run_getData. unfold Schedules_Get. rewrite run_call.
    cbn [s0 set_deadline trace data deadline]. rewrite Hget. cbn iota beta.
    rewrite !run_Set, run_bind. unfold flattenScheduleLayers. rewrite run_bind.
    match goal with |- context [flattenLoop _ [] w ?st] =>
      destruct (flattenLoop_error w _ Hbad [] st) as (sl & k & -> & Hin & He & Hparse) end.
    cbn iota beta. rewrite run_ret. cbn iota beta. rewrite run_ret.
    exists sl. eexists. split; [done|]. do 3 (split; [done|]).
    cbn. repeat split; by simplify_map_eq. }
  assert (retryLoop (attempts w (trace s) (30 * time_Second)) readAttempt tt w s0
          = (Ok (tt, Some (bad_end_error sl)), s1)) as ->.
  { destruct (attempts _ _ _); cbn [retryLoop]; by rewrite run_bind, Hrun. }
  cbn [snd]. rewrite run_Sleep, run_ret. exists sl. eexists. split; [done|].
  do 3 (split; [done|]). cbn. rewrite Ht. by rewrite <- app_assoc.
Qed.

(** X10: the read never changes the identifier of [d], whatever the
    service answers: not when the schedule is gone, and not when the
    read fails or dereferences nil. *)
Theorem read_keeps_the_id (w : World) (s : State) :
  d_Id (data (resourcePagerDutyScheduleRead w s).2) = d_Id (data s).
Proof. apply keeps_Read. Qed.

(** ** Update *)

Lemma steady_updateAttempt (id : string) (doc : Schedule) (overflow : bool) (c : unit) :
  steady (updateAttempt id doc overflow c).
Proof. unfold steady, updateAttempt, Schedules_Update. keeps_all. Qed.

(** X11: the update never changes [d]; and it returns nil only when
    its last event is a call of [Schedules.Update] for the identifier
    of [d], under the retry of 2 minutes, that the service answered
    without an error. *)
Theorem update_outcome (w : World) (s : State) :
  data (resourcePagerDutyScheduleUpdate w s).2 = data s ∧
  ((resourcePagerDutyScheduleUpdate w s).1 = Ok None →
   ∃ h doc,
     trace (resourcePagerDutyScheduleUpdate w s).2
     = h ++ [EvCall (Some (2 * time_Minute))
               (SchedulesUpdate (d_Id (data s)) doc (d_overflow (data s)))] ∧
     remote_Schedules_Update w h (d_Id (data s)) doc (d_overflow (data s)) = None).
Proof.
  unfold resourcePagerDutyScheduleUpdate. rewrite run_Client.
  destruct (Config_Client w) as [err|]; [by split|]. rewrite run_getData.
  destruct (buildScheduleStruct (data s)) as [err|schedule]; [by split|].
  lazymatch goal with |- context [(?m ≫= _) w s] =>
    assert (steady m) as Hrec by (unfold steady; keeps_all);
    rewrite run_bind; generalize (Hrec w s); clear Hrec;
    destruct (m w s) as [[[err|layers]|msg] s1] end;
    cbn [snd]; intros Hs1; [by split| |by split].
  rewrite run_Retry.
  set (doc := set_ScheduleLayers layers schedule).
  set (f := updateAttempt (d_Id (data s)) doc (d_overflow (data s))).
  set (s0 := set_deadline (Some (2 * time_Minute)) s1).
  pose proof (keeps_retryLoop eq (attempts w (trace s1) (2 * time_Minute)) f
                (steady_updateAttempt _ _ _) tt w s0) as Hdata.
  assert (∀ c st, deadline st = Some (2 * time_Minute) →
                  deadline (f c w st).2 = Some (2 * time_Minute)) as Hinv.
  { intros c st Hst.
    destruct (emits_updateAttempt (d_Id (data s)) doc (d_overflow (data s)) c w st)
      as (evs & _ & Hd & _). fold f in Hd. by rewrite Hd. }
  pose proof (retryLoop_nil (λ st, deadline st = Some (2 * time_Minute)) w
                (attempts w (trace s1) (2 * time_Minute)) f Hinv tt) as Hnil.
  destruct (retryLoop _ f tt w s0) as [[[c [e|]]|msg] s2] eqn:Hloop;
    cbn in Hdata; cbn [snd fst] in *.
  - rewrite run_Sleep, run_ret. cbn. split; [congruence | done].
  - rewrite run_ret. cbn. split; [congruence|]. intros _.
    destruct (Hnil c s0 s2 eq_refl Hloop) as (c0 & st & Hst & Hf).
    unfold f, updateAttempt, Schedules_Update in Hf. rewrite run_call in Hf.
    destruct (remote_Schedules_Update w (trace st) (d_Id (data s)) doc (d_overflow (data s)))
      as [err|] eqn:Hanswer; [done|].
    rewrite run_ret in Hf. injection Hf as _ <-. exists (trace st), doc.
    rewrite Hst. done.
  - cbn. split; [congruence | done].
Qed.

(** ** Delete *)

(** X12: the delete clears the identifier of [d] exactly when it
    returns nil, and then its last event is a call of
    [Schedules.Delete] for the identifier [d] had, under the retry of 2
    minutes, that the service answered without an error; in every
    other case, an error or a panic, [d] is as it was. *)
Theorem delete_outcome (w : World) (s : State) :
  match (resourcePagerDutyScheduleDelete w s).1 with
  | Ok None =>
      data (resourcePagerDutyScheduleDelete w s).2 = ResourceData_SetId "" (data s) ∧
      ∃ h, trace (resourcePagerDutyScheduleDelete w s).2
           = h ++ [EvCall (Some (2 * time_Minute)) (SchedulesDelete (d_Id (data s)))] ∧
           remote_Schedules_Delete w h (d_Id (data s)) = None
  | _ => data (resourcePagerDutyScheduleDelete w s).2 = data s
  end.
Proof.
  unfold resourcePagerDutyScheduleDelete. rewrite run_Client.
  destruct (Config_Client w) as [err|]; [done|]. rewrite run_getData, run_bind.
  pose proof (steady_extractEPs (d_Id (data s)) w s) as Hs1.
  destruct (extractEPsAssociatedToSchedule (d_Id (data s)) w s) as [[[eps [e|]]|msg] s1];
    cbn in Hs1; cbn [fst snd]; [done| |done].
  rewrite run_bind.
  pose proof (steady_listIncidents (d_Id (data s)) w s1) as Hs2.
  destruct (listIncidentsOpenedRelatedToSchedule (d_Id (data s)) w s1)
    as [[[links [e|]]|msg] s2]; cbn in Hs2; cbn [fst snd]; [by etrans| |by etrans].
  destruct (0 <? length links)%nat; [by etrans|].
  rewrite run_Retry.
  set (f := deleteAttempt (d_Id (data s)) eps).
  set (s0 := set_deadline (Some (2 * time_Minute)) s2).
  pose proof (keeps_retryLoop eq (attempts w (trace s2) (2 * time_Minute)) f
                (steady_deleteAttempt _ _) tt w s0) as Hdata.
  assert (∀ c st, deadline st = Some (2 * time_Minute) →
                  deadline (f c w st).2 = Some (2 * time_Minute)) as Hinv.
  { intros c st Hst.
    destruct (emits_deleteAttempt (d_Id (data s)) eps c w st) as (evs & _ & Hd & _).
    fold f in Hd. by rewrite Hd. }
  pose proof (retryLoop_nil (λ st, deadline st = Some (2 * time_Minute)) w
                (attempts w (trace s2) (2 * time_Minute)) f Hinv tt) as Hnil.
  destruct (retryLoop _ f tt w s0) as [[[c [e|]]|msg] s3] eqn:Hloop;
    cbn in Hdata; cbn [snd fst] in *.
  - rewrite run_Sleep, run_ret. cbn. congruence.
  - rewrite run_SetId, run_ret. cbn. split; [f_equal; congruence|].
    destruct (Hnil c s0 s3 eq_refl Hloop) as (c0 & st & Hst & Hf).
    unfold f, deleteAttempt, Schedules_Delete in Hf. rewrite run_call in Hf.
    destruct (remote_Schedules_Delete w (trace st) (d_Id (data s))) as [err|] eqn:Hanswer.
    + destruct (negb (isErrCode err 400)); [done|].
      destruct (notTheConflict err); [done|]. rewrite run_bind in Hf.
      by destruct (dissociateScheduleFromEPs _ _ _ _) as [[[werr|]|msg] s4].
    + rewrite run_ret in Hf. injection Hf as _ <-. exists (trace st). by rewrite Hst.
  - cbn. congruence.
Qed.

(** ** The scans *)

(** A loop of fetches that returns nil ended with a fetch the service
    answered; the fetches before it failed. *)
Lemma fetches_end (id : string) (timeout : Z) (w : World) (n : nat) :
  ∀ (c found : option Schedule) (s s' : State),
    deadline s = Some timeout →
    retryLoop n (fetchAttempt id) c w s = (Ok (found, None), s') →
    ∃ pre,
      trace s' = trace s ++ pre ++ [EvCall (Some timeout) (SchedulesGet id)] ∧
      Forall (λ ev, ev = EvCall (Some timeout) (SchedulesGet id) ∨ sleeps_2s ev) pre ∧
      remote_Schedules_Get w (trace s ++ pre) id = inr found.
Proof.
  induction n as [|n IH]; intros c found s s' Hdl; cbn [retryLoop]; rewrite run_bind;
    unfold fetchAttempt at 1; unfold Schedules_Get; rewrite run_call, Hdl;
    destruct (remote_Schedules_Get w (trace s) id) as [err|resp] eqn:Hanswer;
    cbn iota beta; rewrite ?run_Sleep, ?run_ret; cbn [fst snd]; rewrite ?run_ret;
    try done.
  - intros [= <- <-]. exists []. by rewrite app_nil_r.
  - intros Hloop. apply IH in Hloop as (pre & -> & Hpre & Hget); [|done].
    exists (EvCall (Some timeout) (SchedulesGet id) :: EvSleep (2 * time_Second) :: pre).
    cbn [emit trace] in *. rewrite <- !app_assoc in *. cbn [app] in *.
    split; [done|]. split; [|done]. constructor; [by left|]. constructor; [by right | done].
  - intros [= <- <-]. exists []. by rewrite app_nil_r.
Qed.

Lemma fetch_sound (id : string) (timeout : Z) (w : World) (s s' : State)
    (found : option Schedule) :
  Retry timeout (fetchAttempt id) None w s = (Ok (found, None), s') →
  ∃ pre,
    trace s' = trace s ++ pre ++ [EvCall (Some timeout) (SchedulesGet id)] ∧
    Forall (λ ev, ev = EvCall (Some timeout) (SchedulesGet id) ∨ sleeps_2s ev) pre ∧
    remote_Schedules_Get w (trace s ++ pre) id = inr found.
Proof.
  unfold Retry. intros Hrun.
  destruct (retryLoop _ _ _ _ _) as [[[c e]|msg] s1] eqn:Hloop; [|done].
  injection Hrun as -> -> <-.
  apply (fetches_end id timeout) in Hloop as (pre & Ht & Hpre & Hget); [|done].
  by exists pre.
Qed.

(** X13: when [extractEPsAssociatedToSchedule] returns without an
    error, the last event of its run is a fetch of the schedule under
    the retry of 10 seconds, the events before it are fetches that
    failed and sleeps of 2 seconds, the service answered that last
    fetch with a schedule, and the policies returned are the
    identifiers of the escalation policies of that schedule, in their
    order; with an error it returns no policy. *)
Theorem extractEPs_sound (id : string) (w : World) (s s' : State) (eps : list string)
    (err : option GoError) :
  extractEPsAssociatedToSchedule id w s = (Ok (eps, err), s') →
  match err with
  | Some _ => eps = []
  | None =>
      let fetch := EvCall (Some (10 * time_Second)) (SchedulesGet id) in
      ∃ pre sch,
        trace s' = trace s ++ pre ++ [fetch] ∧
        Forall (λ ev, ev = fetch ∨ sleeps_2s ev) pre ∧
        remote_Schedules_Get w (trace s ++ pre) id = inr (Some sch) ∧
        eps = epr_ID <$> s_EscalationPolicies sch
  end.
Proof.
  unfold extractEPsAssociatedToSchedule. rewrite run_bind.
  destruct (Retry _ _ _ _ _) as [[[found [e|]]|msg] s1] eqn:Hfetch; cbn [fst snd]; [| |done].
  - rewrite run_ret. by intros [= <- <- _].
  - apply fetch_sound in Hfetch as (pre & Ht & Hpre & Hget). destruct found as [sch|]; [|done].
    rewrite run_ret. intros [= <- <- <-]. by exists pre, sch.
Qed.

(** How a loop of listings ends: with a listing that failed, followed
    by a sleep, and the links as they were; or with a listing the
    service answered, and the links of its incidents added. *)
Lemma listAttempts_result (teams : list string) (timeout : Z) (w : World) (n : nat) :
  let options := {| o_DateRange := "all"; o_Statuses := ["triggered"; "acknowledged"];
                    o_TeamIDs := teams |} in
  let listing := EvCall (Some timeout) (IncidentsListAll options) in
  ∀ (c c' : list string) (e : option GoError) (s s' : State),
    deadline s = Some timeout →
    retryLoop n (listAttempt teams) c w s = (Ok (c', e), s') →
    ∃ pre,
      Forall (λ ev, ev = listing ∨ sleeps_2s ev) pre ∧
      ((∃ err, e = Some err ∧ c' = c ∧
          trace s' = trace s ++ pre ++ [listing; EvSleep (2 * time_Second)] ∧
          remote_Incidents_ListAll w (trace s ++ pre) options = inl err)
       ∨ (∃ incidents, e = None ∧ c' = c ++ (inc_HTMLURL <$> incidents) ∧
            trace s' = trace s ++ pre ++ [listing] ∧
            remote_Incidents_ListAll w (trace s ++ pre) options = inr incidents)).
Proof.
  intros options listing.
  induction n as [|n IH]; intros c c' e s s' Hdl; cbn [retryLoop]; rewrite run_bind;
    unfold listAttempt at 1; unfold Incidents_ListAll; rewrite run_call, Hdl;
    fold options; fold listing;
    destruct (remote_Incidents_ListAll w (trace s) options) as [err|incidents] eqn:Hanswer;
    cbn iota beta; rewrite ?run_Sleep, ?run_ret; cbn [fst snd]; rewrite ?run_ret.
  - intros [= <- <- <-]. exists []. split; [done|]. left. exists err.
    rewrite app_nil_r. cbn [emit trace]. by rewrite <- app_assoc.
  - intros [= <- <- <-]. exists []. split; [done|]. right. exists incidents.
    by rewrite app_nil_r.
  - intros Hloop. apply IH in Hloop as (pre & Hpre & Hend); [|done].
    exists (listing :: EvSleep (2 * time_Second) :: pre).
    split; [constructor; [by left|]; constructor; [by right | done]|].
    destruct Hend as [(err' & -> & -> & Ht & Hlist)|(incidents & -> & -> & Ht & Hlist)];
      [left; exists err' | right; exists incidents];
      cbn [emit trace] in Ht, Hlist; rewrite <- !app_assoc in Ht, Hlist; cbn [app] in *;
      done.
  - intros [= <- <- <-]. exists []. split; [done|]. right. exists incidents.
    by rewrite app_nil_r.
Qed.

(** X14: when [listIncidentsOpenedRelatedToSchedule] returns without
    an error, its run is a loop of fetches that ends with a fetch the
    service answered with a schedule, followed by a loop of listings
    for the date range [all], the statuses triggered and acknowledged
    and the teams of that schedule. Either the last of these listings
    failed and no link is returned, or the service answered the last
    listing, which is then the last event of the run, and the links
    returned are the URLs of the incidents of that answer, in their
    order. With an error no link is returned. *)
Theorem listIncidents_sound (id : string) (w : World) (s s' : State) (links : list string)
    (err : option GoError) :
  listIncidentsOpenedRelatedToSchedule id w s = (Ok (links, err), s') →
  match err with
  | Some _ => links = []
  | None =>
      ∃ pre sch rest,
        let fetch := EvCall (Some (10 * time_Second)) (SchedulesGet id) in
        let options := {| o_DateRange := "all"; o_Statuses := ["triggered"; "acknowledged"];
                          o_TeamIDs := t_ID <$> s_Teams sch |} in
        let listing := EvCall (Some (10 * time_Second)) (IncidentsListAll options) in
        let fetched := trace s ++ pre ++ [fetch] in
        Forall (λ ev, ev = fetch ∨ sleeps_2s ev) pre ∧
        remote_Schedules_Get w (trace s ++ pre) id = inr (Some sch) ∧
        Forall (λ ev, ev = listing ∨ sleeps_2s ev) rest ∧
        ((∃ failure, links = [] ∧
            trace s' = fetched ++ rest ++ [listing; EvSleep (2 * time_Second)] ∧
            remote_Incidents_ListAll w (fetched ++ rest) options = inl failure)
         ∨ (∃ incidents, links = inc_HTMLURL <$> incidents ∧
              trace s' = fetched ++ rest ++ [listing] ∧
              remote_Incidents_ListAll w (fetched ++ rest) options = inr incidents))
  end.
Proof.
  unfold listIncidentsOpenedRelatedToSchedule. rewrite run_bind.
  destruct (Retry _ _ _ _ _) as [[[found [e|]]|msg] s1] eqn:Hfetch; cbn [fst snd]; [| |done].
  - rewrite run_ret. by intros [= <- <- _].
  - apply fetch_sound in Hfetch as (pre & Ht & Hpre & Hget). destruct found as [sch|]; [|done].
    rewrite run_bind. unfold Retry at 1.
    destruct (retryLoop _ _ _ _ _) as [[[c e]|msg] s2] eqn:Hloop; [|done].
    cbn [fst snd]. rewrite run_ret. intros [= <- <- <-]. exists pre, sch.
    apply (listAttempts_result _ (10 * time_Second)) in Hloop
      as (rest & Hrest & Hend); [|done].
    exists rest. cbn zeta. cbn [set_deadline trace] in Hend |- *. rewrite Ht in Hend.
    do 3 (split; [done|]).
    destruct Hend as [(failure & _ & -> & Htrace & Hlist)|(incidents & _ & -> & Htrace & Hlist)].
    + left. by exists failure.
    + right. by exists incidents.
Qed.

(** ** The compensation *)

Lemma policyAttempts_error (epID : string) (timeout : Z) (w : World) (n : nat) :
  ∀ (c c' : option EscalationPolicy) (e : GoError) (s s' : State),
    deadline s = Some timeout →
    retryLoop n (policyAttempt epID) c w s = (Ok (c', Some e), s') →
    ∃ h, trace s `prefix_of` h ∧
         trace s' = h ++ [EvCall (Some timeout) (EscalationPoliciesGet epID)] ∧
         remote_EscalationPolicies_Get w h epID = inl e ∧ isErrCode e 404 = false.
Proof.
  induction n as [|n IH]; intros c c' e s s' Hdl; cbn [retryLoop]; rewrite run_bind;
    unfold policyAttempt at 1; unfold EscalationPolicies_Get; rewrite run_call, Hdl;
    destruct (remote_EscalationPolicies_Get w (trace s) epID) as [err|resp] eqn:Hanswer;
    cbn iota beta; try destruct (isErrCode err 404) eqn:H404;
    rewrite ?run_ret; cbn [fst snd]; rewrite ?run_ret; try done.
  - intros [= <- <- <-]. by exists (trace s).
  - intros Hloop. apply IH in Hloop as (h & [evs Hh] & Ht & Hget); [|done].
    exists h. split; [|done]. cbn [emit trace] in Hh. rewrite Hh, <- app_assoc. by eexists.
Qed.

Lemma writeBackAttempts_error (written : EscalationPolicy) (timeout : Z) (w : World) (n : nat) :
  ∀ (c c' : unit) (e : GoError) (s s' : State),
    deadline s = Some timeout →
    retryLoop n (writeBackAttempt written) c w s = (Ok (c', Some e), s') →
    ∃ h, trace s `prefix_of` h ∧
         trace s' = h ++ [EvCall (Some timeout)
                            (EscalationPoliciesUpdate (ep_ID written) written)] ∧
         remote_EscalationPolicies_Update w h (ep_ID written) written = Some e ∧
         isErrCode e 404 = false.
Proof.
  induction n as [|n IH]; intros c c' e s s' Hdl; cbn [retryLoop]; rewrite run_bind;
    unfold writeBackAttempt at 1; unfold EscalationPolicies_Update; rewrite run_call, Hdl;
    destruct (remote_EscalationPolicies_Update w (trace s) (ep_ID written) written)
      as [err|] eqn:Hanswer;
    cbn iota beta; try destruct (isErrCode err 404) eqn:H404; cbn [negb];
    rewrite ?run_ret; cbn [fst snd]; rewrite ?run_ret; try done.
  - intros [= <- <- <-]. by exists (trace s).
  - intros Hloop. apply IH in Hloop as (h & [evs Hh] & Ht & Hget); [|done].
    exists h. split; [|done]. cbn [emit trace] in Hh. rewrite Hh, <- app_assoc. by eexists.
Qed.

Lemma removeScheduleFromEP_error (scheduleID : string) (ep : EscalationPolicy) (w : World)
    (s s' : State) (e : GoError) :
  removeScheduleFromEP scheduleID ep w s = (Ok (Some e), s') →
  ∃ h written,
    trace s `prefix_of` h ∧
    trace s' = h ++ [EvCall (Some (10 * time_Second))
                       (EscalationPoliciesUpdate (ep_ID written) written)] ∧
    remote_EscalationPolicies_Update w h (ep_ID written) written = Some e ∧
    isErrCode e 404 = false.
Proof.
  unfold removeScheduleFromEP. rewrite run_bind. unfold lift at 1.
  destruct (removeScheduleLoops _ _) as [st|msg]; [|done]. cbn iota beta.
  destruct (negb (needsToUpdate st)); [done|]. rewrite run_bind. unfold Retry at 1.
  destruct (retryLoop _ _ _ _ _) as [[[c [e'|]]|msg] s1] eqn:Hloop; cbn [fst snd]; [|done..].
  rewrite run_ret. intros [= <- <-].
  apply (writeBackAttempts_error _ (10 * time_Second)) in Hloop as (h & Hh & Ht & Hanswer);
    [|done].
  eexists h, _. by split.
Qed.

Lemma trace_grows {A : Type} (Q : option Z -> Event -> Prop) (m : M A) (w : World)
    (s : State) :
  emits Q m → trace s `prefix_of` trace (m w s).2.
Proof. intros Hm. destruct (Hm w s) as (evs & -> & _). by eexists. Qed.

(** X15: when [dissociateScheduleFromEPs] returns an error, the last
    event of its run is, under the retry of 10 seconds, the fetch of
    one of the policies it was given or the write-back of a policy;
    the service answered that call, at the history of the run up to
    it, with an error whose status is not 404; and the error returned
    wraps that error, with its message followed by the text that names
    the schedule and one of the policies it was given, which is the
    policy of the fetch when the call is a fetch. *)
Theorem dissociate_error_names_the_policy (scheduleID : string) (eps : list string)
    (w : World) (s s' : State) (err : GoError) :
  dissociateScheduleFromEPs scheduleID eps w s = (Ok (Some err), s') →
  ∃ epID inner h,
    epID ∈ eps ∧
    err = ErrorWrap (Error inner +:+ "; " +:+ dissociateMessage scheduleID epID) inner ∧
    trace s `prefix_of` h ∧
    isErrCode inner 404 = false ∧
    ((trace s' = h ++ [EvCall (Some (10 * time_Second)) (EscalationPoliciesGet epID)] ∧
      remote_EscalationPolicies_Get w h epID = inl inner)
     ∨ (∃ written,
          trace s' = h ++ [EvCall (Some (10 * time_Second))
                             (EscalationPoliciesUpdate (ep_ID written) written)] ∧
          remote_EscalationPolicies_Update w h (ep_ID written) written = Some inner)).
Proof.
  revert s. induction eps as [|epID rest IH]; intros s; cbn [dissociateScheduleFromEPs];
    [done|].
  assert (∀ c, emits (λ _ _, True) (policyAttempt epID c)) as Hfetches.
  { intros c. eapply emits_weaken; [|apply emits_policyAttempt]. done. }
  pose proof (trace_grows _ _ w s
                (emits_Retry (λ _ _, True) _ (10 * time_Second) _ None Hfetches
                   (λ _ _ _, I))) as Hgrows.
  rewrite run_bind. unfold Retry at 1. unfold Retry in Hgrows.
  destruct (retryLoop _ _ _ _ _) as [[[found [e|]]|msg] s1] eqn:Hloop; cbn [fst snd] in *;
    [| |done].
  - rewrite run_ret. intros [= <- <-].
    apply (policyAttempts_error _ (10 * time_Second)) in Hloop as (h & Hh & Ht & Hget & H404);
      [|done].
    exists epID, e, h. split; [left|]. split; [done|]. split; [done|]. split; [done|].
    left. by split.
  - destruct found as [ep|].
    + rewrite run_bind.
      pose proof (trace_grows _ _ w (set_deadline (deadline s) s1)
                    (emits_removeScheduleFromEP scheduleID ep)) as Hgrows2.
      destruct (removeScheduleFromEP _ _ _ _) as [[[e|]|msg] s2] eqn:Hremove; [| |done].
      * rewrite run_ret. intros [= <- <-].
        apply removeScheduleFromEP_error in Hremove as (h & written & Hh & Ht & Hupd & H404).
        exists epID, e, h. split; [left|]. split; [done|].
        split; [by etrans|]. split; [done|]. right. by exists written.
      * intros Hrest.
        destruct (IH _ Hrest) as (ep' & inner & h & Hin & -> & Hh & H404 & Hlast).
        exists ep', inner, h. split; [by right|]. split; [done|].
        split; [by etrans; [|etrans]|]. by split.
    + intros Hrest.
      destruct (IH _ Hrest) as (ep' & inner & h & Hin & -> & Hh & H404 & Hlast).
      exists ep', inner, h. split; [by right|]. split; [done|].
      split; [by etrans|]. by split.
Qed.

(** ** The compensation on one policy *)

(** X16: a policy none of whose rules has the schedule as a target is
    left alone: [removeScheduleFromEP] returns nil without a call. *)
Theorem policy_without_the_schedule_is_left_alone (scheduleID : string)
    (ep : EscalationPolicy) (w : World) (s : State) :
  Forall (free_of scheduleID) (ep_EscalationRules ep) →
  removeScheduleFromEP scheduleID ep w s = (Ok None, s).
Proof.
  intros Hfree. unfold removeScheduleFromEP.
  rewrite run_bind, removeScheduleLoops_free by done. done.
Qed.

(** X17: when exactly one target of exactly one rule of the policy is
    the schedule, [removeScheduleFromEP] begins by writing the policy
    back, under the retry of 10 seconds, with that target taken out of
    its rule, or with the rule taken out when it had no other target,
    and with every other rule and target in place. When the service
    accepts this write-back, or answers it with status 404, nil is
    returned at once. *)
Theorem single_reference_is_removed (scheduleID : string) (ep : EscalationPolicy)
    (pre post : list EscalationRule) (r : EscalationRule)
    (tpre tpost : list EscalationTargetReference) (t : EscalationTargetReference)
    (w : World) (s : State) :
  ep_EscalationRules ep = pre ++ r :: post →
  Forall (free_of scheduleID) pre → Forall (free_of scheduleID) post →
  er_Targets r = tpre ++ t :: tpost →
  isScheduleConfiguredInEscalationRule scheduleID t = true →
  Forall (off scheduleID) tpre → Forall (off scheduleID) tpost →
  let written := {| ep_ID := ep_ID ep; ep_Name := ep_Name ep;
                    ep_EscalationRules := pre ++ without (tpre ++ tpost) r ++ post |} in
  let request := EvCall (Some (10 * time_Second))
                   (EscalationPoliciesUpdate (ep_ID ep) written) in
  (∃ rest, events_of (removeScheduleFromEP scheduleID ep) w s = request :: rest) ∧
  (match remote_EscalationPolicies_Update w (trace s) (ep_ID ep) written with
   | None => True
   | Some err => isErrCode err 404 = true
   end →
   removeScheduleFromEP scheduleID ep w s = (Ok None, emit request s)).
Proof.
  intros Hrules Hpre Hpost Htargets Hon Htpre Htpost written request.
  destruct (removeScheduleLoops_single scheduleID pre post r tpre tpost t)
    as (st & Hloops & Hneeds & Hstore); [done..|].
  rewrite <- Hrules in Hloops. split.
  - pose proof (write_back_iff_changed scheduleID ep st w s Hloops) as Hwb.
    rewrite Hneeds, Hstore in Hwb. done.
  - intros Hanswer. unfold removeScheduleFromEP.
    rewrite run_bind, Hloops. unfold lift at 1. cbn iota beta. rewrite Hneeds. cbn [negb].
    rewrite Hstore. fold written. rewrite run_Retry.
    assert (retryLoop (attempts w (trace s) (10 * time_Second)) (writeBackAttempt written) tt w
              (set_deadline (Some (10 * time_Second)) s)
            = (Ok (tt, None), after [request] (set_deadline (Some (10 * time_Second)) s))) as ->.
    { destruct (attempts _ _ _); cbn [retryLoop]; rewrite run_bind;
        unfold writeBackAttempt, EscalationPolicies_Update; rewrite run_call;
        cbn [set_deadline trace deadline ep_ID written] in *;
        destruct (remote_EscalationPolicies_Update w (trace s) (ep_ID ep) written) as [err|];
        rewrite ?Hanswer; done. }
    cbn [snd]. by rewrite run_ret, restore_deadline.
Qed.

(** ** An update the service refuses *)



End MoreProperties.

(** * More concrete runs *)

Section MoreRuns.
Import Sample Inputs MoreInputs.

(** Two configured layers, one of which ends after the clock reads. *)
Lemma configuration_is_read_back_witness :
  ∃ view s',
    flattenScheduleLayers [layerA; layerE] still (start plan) = (Ok (inr view), s') ∧
    trace s' = trace (start plan) ∧ data s' = data (start plan) ∧
    Forall2 reads_back (reverse [rawA; rawE]) view.
Proof.
  apply (configuration_is_read_back [rawA; rawE] [layerA; layerE] still (start plan)).
  - reflexivity.
  - constructor; [by left|]. constructor; [|constructor].
    right. eexists. split; [reflexivity|]. intros j. vm_compute. discriminate.
Defined.

(** A plan whose second layer has no timestamp as its rotation start. *)
Lemma invalid_configuration_is_rejected_locally_witness :
  let err := ErrorString ("parsing time " +:+ Sprintf_q "next monday") in
  resourcePagerDutyScheduleCreate still (start bad_plan) = (Ok (Some err), start bad_plan) ∧
  resourcePagerDutyScheduleUpdate still (start bad_plan) = (Ok (Some err), start bad_plan).
Proof.
  apply (invalid_configuration_is_rejected_locally still (start bad_plan) rawD); reflexivity.
Defined.

(** The create in a world where every call succeeds. *)
Lemma create_outcome_witness :
  d_Id (data (resourcePagerDutyScheduleCreate calm (start plan)).2) = "PSCHED" ∧
  ∃ rest, events_of resourcePagerDutyScheduleCreate calm (start plan)
          = EvCall None (SchedulesCreate planned false)
              :: EvCall (Some (30 * time_Second)) (SchedulesGet "PSCHED") :: rest.
Proof. apply (create_outcome calm (start plan) planned); reflexivity. Defined.

Lemma read_of_an_absent_schedule_witness :
  resourcePagerDutyScheduleRead absent (start plan)
  = (Ok None, emit (EvCall (Some (30 * time_Second)) (SchedulesGet "PSCHED")) (start plan)).
Proof. apply (read_of_an_absent_schedule absent (start plan)); reflexivity. Defined.

(** The read of the four remote layers. *)
Lemma read_stores_the_schedule_witness :
  ∃ s',
    resourcePagerDutyScheduleRead still (start plan) = (Ok None, s') ∧
    d_stored (data s') !! "name" = Some (SetString "Primary") ∧
    d_stored (data s') !! "layer"
    = Some (SetLayers [flat open_ended; flat ends_later; flat ends_now]).
Proof.
  destruct (read_stores_the_schedule still (start plan) (document remote_layers (Some final))
              final eq_refl eq_refl ends_parse_remote_layers eq_refl)
    as (s' & Hrun & _ & Hname & _ & _ & Hlayer & _).
  exists s'. split; [exact Hrun|]. split; [exact Hname | exact Hlayer].
Defined.

(** Every fetch fails, and the deadline leaves room for two more. *)
Lemma read_gives_up_at_the_deadline_witness :
  ∃ err,
    resourcePagerDutyScheduleRead outage (start plan)
    = (Ok (Some err),
       after (failed_fetches (30 * time_Second) "PSCHED" 3 ++ [EvSleep (2 * time_Second)])
         (start plan)) ∧
    remote_Schedules_Get outage
      (trace (start plan) ++ failed_fetches (30 * time_Second) "PSCHED" 2) "PSCHED" = inl err.
Proof.
  apply (read_gives_up_at_the_deadline outage (start plan)); [reflexivity|].
  intros h. by exists unavailable.
Defined.

Lemma read_bad_end_is_not_retried_witness :
  ∃ sl s',
    resourcePagerDutyScheduleRead corrupt (start plan) = (Ok (Some (bad_end_error sl)), s') ∧
    sl ∈ [open_ended; garbled] ∧ ended sl = true ∧ time_Parse (endStr sl) = None ∧
    trace s' = trace (start plan)
               ++ [EvCall (Some (30 * time_Second)) (SchedulesGet "PSCHED");
                   EvSleep (2 * time_Second)] ∧
    d_stored (data s') !! "name" = Some (SetString "Primary") ∧
    d_stored (data s') !! "time_zone" = Some (SetString "Europe/Berlin") ∧
    d_stored (data s') !! "description" = Some (SetString "Managed by Terraform") ∧
    d_stored (data s') !! "layer" = d_stored (data (start plan)) !! "layer".
Proof.
  apply (read_bad_end_is_not_retried corrupt (start plan)
           (document [open_ended; garbled] (Some final))); [reflexivity..|].
  apply Exists_cons_tl, Exists_cons_hd. split; reflexivity.
Defined.

(** The first fetch of the schedule fails, the second is answered. *)
Lemma extractEPs_sound_witness :
  let fetch := EvCall (Some (10 * time_Second)) (SchedulesGet "PSCHED") in
  ∃ pre sch,
    trace (extractEPsAssociatedToSchedule "PSCHED" recovering (start plan)).2
    = trace (start plan) ++ pre ++ [fetch] ∧
    Forall (λ ev, ev = fetch ∨ sleeps_2s ev) pre ∧
    remote_Schedules_Get recovering (trace (start plan) ++ pre) "PSCHED" = inr (Some sch) ∧
    ["PEP"] = epr_ID <$> s_EscalationPolicies sch.
Proof.
  apply (extractEPs_sound "PSCHED" recovering (start plan)
           (extractEPsAssociatedToSchedule "PSCHED" recovering (start plan)).2 ["PEP"] None).
  reflexivity.
Defined.

(** The scan finds one open incident. *)
Lemma listIncidents_sound_witness :
  ∃ pre sch rest,
    let fetch := EvCall (Some (10 * time_Second)) (SchedulesGet "PSCHED") in
    let options := {| o_DateRange := "all"; o_Statuses := ["triggered"; "acknowledged"];
                      o_TeamIDs := t_ID <$> s_Teams sch |} in
    let listing := EvCall (Some (10 * time_Second)) (IncidentsListAll options) in
    let fetched := trace (start plan) ++ pre ++ [fetch] in
    Forall (λ ev, ev = fetch ∨ sleeps_2s ev) pre ∧
    remote_Schedules_Get open_incident (trace (start plan) ++ pre) "PSCHED" = inr (Some sch) ∧
    Forall (λ ev, ev = listing ∨ sleeps_2s ev) rest ∧
    ((∃ failure, ["https://acme.pagerduty.com/incidents/Q1"] = [] ∧
        trace (listIncidentsOpenedRelatedToSchedule "PSCHED" open_incident (start plan)).2
        = fetched ++ rest ++ [listing; EvSleep (2 * time_Second)] ∧
        remote_Incidents_ListAll open_incident (fetched ++ rest) options = inl failure)
     ∨ (∃ incidents, ["https://acme.pagerduty.com/incidents/Q1"] = inc_HTMLURL <$> incidents ∧
          trace (listIncidentsOpenedRelatedToSchedule "PSCHED" open_incident (start plan)).2
          = fetched ++ rest ++ [listing] ∧
          remote_Incidents_ListAll open_incident (fetched ++ rest) options = inr incidents)).
Proof.
  apply (listIncidents_sound "PSCHED" open_incident (start plan)
           (listIncidentsOpenedRelatedToSchedule "PSCHED" open_incident (start plan)).2
           ["https://acme.pagerduty.com/incidents/Q1"] None).
  reflexivity.
Defined.

(** The fetch of the policy fails at every attempt. *)
Lemma dissociate_error_names_the_policy_witness :
  ∃ epID inner h,
    epID ∈ ["PEP"] ∧
    ErrorWrap (Error unavailable +:+ "; " +:+ dissociateMessage "PSCHED" "PEP") unavailable
    = ErrorWrap (Error inner +:+ "; " +:+ dissociateMessage "PSCHED" epID) inner ∧
    trace (start plan) `prefix_of` h ∧
    isErrCode inner 404 = false ∧
    ((trace (dissociateScheduleFromEPs "PSCHED" ["PEP"] policies_down (start plan)).2
      = h ++ [EvCall (Some (10 * time_Second)) (EscalationPoliciesGet epID)] ∧
      remote_EscalationPolicies_Get policies_down h epID = inl inner)
     ∨ (∃ written,
          trace (dissociateScheduleFromEPs "PSCHED" ["PEP"] policies_down (start plan)).2
          = h ++ [EvCall (Some (10 * time_Second))
                    (EscalationPoliciesUpdate (ep_ID written) written)] ∧
          remote_EscalationPolicies_Update policies_down h (ep_ID written) written
          = Some inner)).
Proof.
  apply (dissociate_error_names_the_policy "PSCHED" ["PEP"] policies_down (start plan)
           (dissociateScheduleFromEPs "PSCHED" ["PEP"] policies_down (start plan)).2).
  reflexivity.
Defined.

Lemma policy_without_the_schedule_is_left_alone_witness :
  removeScheduleFromEP "PSCHED" unrelated still (start plan) = (Ok None, start plan).
Proof.
  apply (policy_without_the_schedule_is_left_alone "PSCHED" unrelated still (start plan)).
  repeat constructor.
Defined.

(** The schedule is the second of the three targets of the second of
    three rules. *)
Lemma single_reference_is_removed_witness :
  let written :=
    policy [rule "PRULE1" [to_user "PUSER1"];
            rule "PRULE2" [to_user "PUSER1"; to_user "PUSER2"];
            rule "PRULE3" [to_user "PUSER2"]] in
  let request := EvCall (Some (10 * time_Second)) (EscalationPoliciesUpdate "PEP" written) in
  (∃ rest, events_of (removeScheduleFromEP "PSCHED" one_reference) still (start plan)
           = request :: rest) ∧
  removeScheduleFromEP "PSCHED" one_reference still (start plan)
  = (Ok None, emit request (start plan)).
Proof.
  destruct (single_reference_is_removed "PSCHED" one_reference
              [rule "PRULE1" [to_user "PUSER1"]] [rule "PRULE3" [to_user "PUSER2"]]
              shared_rule [to_user "PUSER1"] [to_user "PUSER2"] to_schedule
              still (start plan) eq_refl
              ltac:(repeat constructor) ltac:(repeat constructor) eq_refl eq_refl
              ltac:(repeat constructor) ltac:(repeat constructor)) as [Hbegins Hnil].
  split; [exact Hbegins | exact (Hnil I)].
Defined.

End MoreRuns.
